(** * Stroke Data Dashboard: the dataframe pipeline of [stroke.py]

    The script loads a CSV of patient records, relabels four integer-coded
    columns, reads three sidebar controls, filters the table and emits
    KPI cards, five charts and an insight block.

    The development has two layers.
    - [Pandas]: the dataframe operations the script calls, on a table
      represented as the list of its rows (position = row order) and a
      column as the list of its cells.
    - [Dashboard]: the script itself, statement by statement, in a small
      writer/error monad: the elements handed to the dashboard are
      appended to the output, an exception stops the run and keeps what
      was emitted before it.

    Conventions of the embedding.
    - Float columns (age, glucose, BMI) hold float64 values, which are
      rationals [Q]; a missing cell (NaN) is [None].  Comparisons, [min],
      [max] and [int] are exact on them.  Sums, quotients and products of
      floats are rounded: they are the operations of the class
      [FloatArith], and every theorem holds for all of them.  The
      instance [exact_arith] computes without rounding; it is used on the
      sample files only, whose means and rates are exact in float64.
    - The textual formatting of numbers ([:.2f], [:,]) is not modelled: a
      card or an insight holds the number itself.
    - Integer columns are int64: their sum wraps modulo 2^64.
    - The plotting calls are recorded with the data they receive.  The
      bar chart is the one call that can refuse its data: [px_bar] tells
      when it raises. *)

From Stdlib Require Import ZArith QArith String List Lia Lqa.
From stdpp Require Import gmap strings list sorting.

Local Open Scope Z_scope.

(** ** Exceptions and results *)

Inductive exn := ValueError | KeyError.

Inductive result (A : Type) :=
| Ok (a : A)
| Raise (e : exn).
Arguments Ok {A} a.
Arguments Raise {A} e.

Global Instance Qle_decision (x y : Q) : Decision (x <= y)%Q.
Proof.
  destruct (Qle_bool x y) eqn:E.
  - left. by apply Qle_bool_iff.
  - right. intros H. apply Qle_bool_iff in H. congruence.
Defined.

Global Instance Qeq_decision (x y : Q) : Decision (x == y)%Q := Qeq_dec x y.

Global Instance Qle_transitive : Transitive Qle := Qle_trans.

Module Pandas.

(** *** Label columns: [Series.map(dict)], [dropna], [unique], [isin] *)

(** [s.map(d)] with a dict: a key that is not in [d] gives NaN. *)
Definition series_map (d : gmap Z string) (s : list Z) : list (option string) :=
  (λ k, d !! k) <$> s.

(** [s.dropna()] *)
Definition dropna {A} (s : list (option A)) : list A := omap id s.

(** [s.unique()]: the distinct values in order of first appearance. *)
Fixpoint unique (s : list string) : list string :=
  match s with
  | [] => []
  | x :: s' => x :: filter (λ y, y ≠ x) (unique s')
  end.

(** A cell belongs to a list of labels; NaN belongs to none. *)
Definition label_in (c : option string) (values : list string) : Prop :=
  match c with
  | Some l => l ∈ values
  | None => False
  end.

Global Instance label_in_dec c values : Decision (label_in c values).
Proof. destruct c; simpl; apply _. Defined.

(** [s.isin(values)] *)
Definition isin (s : list (option string)) (values : list string) : list bool :=
  (λ c, bool_decide (label_in c values)) <$> s.

(** *** Comparisons with a Python int, masks, boolean indexing *)

(** [s >= k] *)
Definition ge (s : list Q) (k : Z) : list bool :=
  (λ x, Qle_bool (inject_Z k) x) <$> s.

(** [s <= k] *)
Definition le (s : list Q) (k : Z) : list bool :=
  (λ x, Qle_bool x (inject_Z k)) <$> s.

(** [m1 & m2] *)
Definition mask_and (m1 m2 : list bool) : list bool := zip_with andb m1 m2.

(** [df[mask]]: the rows whose mask cell is true, in order. *)
Fixpoint getitem_mask {A} (df : list A) (mask : list bool) : list A :=
  match df, mask with
  | r :: df', b :: mask' =>
      if b then r :: getitem_mask df' mask' else getitem_mask df' mask'
  | _, _ => []
  end.

(** *** Reductions *)

(** [s.min()] and [s.max()] of a float column; NaN on an empty one. *)
Definition series_min (s : list Q) : option Q :=
  match s with
  | [] => None
  | x :: s' => Some (foldl (λ m y, if Qle_bool m y then m else y) x s')
  end.

Definition series_max (s : list Q) : option Q :=
  match s with
  | [] => None
  | x :: s' => Some (foldl (λ m y, if Qle_bool y m then m else y) x s')
  end.

(** The integer part of a float: rounding toward zero. *)
Definition truncate (q : Q) : Z := Z.quot (Qnum q) (Zpos (Qden q)).

(** [int(x)]: truncation toward zero; [int(nan)] raises ValueError. *)
Definition int (x : option Q) : result Z :=
  match x with
  | None => Raise ValueError
  | Some q => Ok (truncate q)
  end.

(** int64 arithmetic wraps. *)
Definition wrap64 (z : Z) : Z := (z + 2 ^ 63) mod 2 ^ 64 - 2 ^ 63.

(** [s.sum()] of an int64 column. *)
Definition sum_int64 (s : list Z) : Z :=
  foldl (λ acc x, wrap64 (acc + x)) 0 s.

(** Float arithmetic.  [fsum] is the sum of a float column as [mean]
    accumulates it, [gsum] the sum of a group as [groupby(...).mean()]
    accumulates it, [fdiv] and [fmul] are the rounded quotient and
    product. *)
Class FloatArith := {
  fsum : list Q → Q;
  gsum : list Q → Q;
  fdiv : Q → Q → Q;
  fmul : Q → Q → Q
}.

Definition Qsum (s : list Q) : Q := foldr Qplus 0%Q s.

(** Arithmetic without rounding. *)
Definition exact_arith : FloatArith :=
  {| fsum := Qsum; gsum := Qsum; fdiv := Qdiv; fmul := Qmult |}.

(** [s.mean()] of a float column without missing cells: the sum divided
    by the number of cells; NaN when empty. *)
Definition mean `{FloatArith} (s : list Q) : option Q :=
  match s with
  | [] => None
  | _ => Some (fdiv (fsum s) (inject_Z (Z.of_nat (length s))))
  end.

(** [s.mean()] skips missing cells. *)
Definition mean_skipna `{FloatArith} (s : list (option Q)) : option Q :=
  mean (dropna s).

(** [s.mean()] of an int64 column: the cells are summed as floats. *)
Definition mean_int `{FloatArith} (s : list Z) : option Q :=
  mean (inject_Z <$> s).

(** [x * k] for a float [x] and a Python int [k]; NaN stays NaN. *)
Definition scale `{FloatArith} (k : Z) (x : option Q) : option Q :=
  (λ q, fmul q (inject_Z k)) <$> x.

(** *** [value_counts] and [mode] *)

Definition occurrences (l : string) (s : list string) : nat :=
  length (filter (λ y, y = l) s).

(** Insertion into a list ordered by decreasing count; an entry goes
    behind the entries with the same count. *)
Fixpoint insert_desc (e : string * nat) (l : list (string * nat)) :
  list (string * nat) :=
  match l with
  | [] => [e]
  | e' :: l' =>
      if (e'.2 <? e.2)%nat then e :: e' :: l' else e' :: insert_desc e l'
  end.

(** [s.value_counts()]: the labels with their number of occurrences,
    most frequent first, missing cells dropped. *)
Definition value_counts (s : list (option string)) : list (string * nat) :=
  let vals := dropna s in
  foldl (λ acc e, insert_desc e acc) []
    ((λ l, (l, occurrences l vals)) <$> unique vals).

Fixpoint insert_label (x : string) (l : list string) : list string :=
  match l with
  | [] => [x]
  | y :: l' => if String.leb x y then x :: y :: l' else y :: insert_label x l'
  end.

Definition sort_labels (l : list string) : list string :=
  foldr insert_label [] l.

(** [s.mode()]: the most frequent labels (missing cells dropped), sorted. *)
Definition mode (s : list (option string)) : list string :=
  let vals := dropna s in
  let u := unique vals in
  let top := max_list ((λ l, occurrences l vals) <$> u) in
  sort_labels (filter (λ l, occurrences l vals = top) u).

(** [s[0]] on a result with the default index 0, 1, ...: KeyError when
    the result is empty. *)
Definition getitem0 {A} (s : list A) : result A :=
  match s with
  | [] => Raise KeyError
  | x :: _ => Ok x
  end.

(** *** Group keys *)

(** Sorted insertion without duplicates; float keys are compared by
    value. *)
Fixpoint insert_key (x : Q) (l : list Q) : list Q :=
  match l with
  | [] => [x]
  | y :: l' =>
      match (x ?= y)%Q with
      | Lt => x :: y :: l'
      | Eq => y :: l'
      | Gt => y :: insert_key x l'
      end
  end.

Definition sorted_keys (s : list Q) : list Q := foldr insert_key [] s.

Fixpoint insert_keyZ (x : Z) (l : list Z) : list Z :=
  match l with
  | [] => [x]
  | y :: l' =>
      match (x ?= y)%Z with
      | Lt => x :: y :: l'
      | Eq => y :: l'
      | Gt => y :: insert_keyZ x l'
      end
  end.

Definition sorted_keysZ (s : list Z) : list Z := foldr insert_keyZ [] s.

(** *** [unstack]: a two-level series pivoted into a table *)

Record Table := {
  index : list Q;
  columns : list Z;
  cells : list (list Z)
}.

Definition lookup_group (a : Q) (c : Z) (g : list ((Q * Z) * Z)) : option Z :=
  snd <$> find (λ e, Qeq_bool e.1.1 a && bool_decide (e.1.2 = c)) g.

(** [g.unstack(fill_value=v)]: rows are the first-level keys, columns the
    second-level keys, a missing combination is filled with [v]. *)
Definition unstack (fill_value : Z) (g : list ((Q * Z) * Z)) : Table :=
  let idx := sorted_keys ((λ e, e.1.1) <$> g) in
  let cols := sorted_keysZ ((λ e, e.1.2) <$> g) in
  {| index := idx;
     columns := cols;
     cells := (λ a, (λ c, default fill_value (lookup_group a c g)) <$> cols) <$> idx |}.

(** [t.loc[a]]: the row labelled [a]. *)
Definition loc_row (t : Table) (a : Q) : option (list Z) :=
  snd <$> find (λ p, Qeq_bool p.1 a) (zip (index t) (cells t)).

(** [t.loc[a, c]]: the cell in row [a], column [c]; [None] when the row
    or the column label is not in the table. *)
Definition loc (t : Table) (a : Q) (c : Z) : option Z :=
  row ← loc_row t a;
  snd <$> find (λ p, bool_decide (p.1 = c)) (zip (columns t) row).

(** *** [groupby] on a float key and an integer key *)

(** [df.groupby([k1, k2]).size()]: one entry per observed pair of keys,
    in key order, with the number of rows of the group. *)
Definition groupby2_size (keys : list (Q * Z)) : list ((Q * Z) * Z) :=
  a ← sorted_keys (fst <$> keys);
  c ← sorted_keysZ (snd <$> filter (λ p, p.1 == a)%Q keys);
  [((a, c), Z.of_nat (length (filter (λ p, (p.1 == a)%Q ∧ p.2 = c) keys)))].

(** The mean of a group: its sum divided by its number of values. *)
Definition group_mean `{FloatArith} (s : list Q) : option Q :=
  match s with
  | [] => None
  | _ => Some (fdiv (gsum s) (inject_Z (Z.of_nat (length s))))
  end.

(** [df.groupby(k)[v].mean().reset_index()]: one row per observed key, in
    key order, with the mean of the group's values. *)
Definition groupby_mean `{FloatArith} (kv : list (Q * Q)) : list (Q * option Q) :=
  (λ a, (a, group_mean (snd <$> filter (λ p, p.1 == a)%Q kv)))
    <$> sorted_keys (fst <$> kv).

End Pandas.

(** ** The script *)

Module Dashboard.
Import Pandas.

Local Open Scope string_scope.

(** A line of the CSV file: twelve columns, read by position. *)
Record CsvRow := {
  csv_id : Z;
  csv_gender : Z;
  csv_age : Q;
  csv_hypertension : Z;
  csv_heart_disease : Z;
  csv_ever_married : Z;
  csv_work_type : Z;
  csv_residence_type : Z;
  csv_avg_glucose_level : Q;
  csv_bmi : option Q;
  csv_smoking_status : Z;
  csv_stroke : Z
}.

(** A row of the loaded table, under the names [load_data] gives the
    columns. *)
Record Patient := {
  ID : Z;
  Gender : option string;
  Age : Q;
  Hypertension : Z;
  Heart_Disease : Z;
  Ever_Married : Z;
  Work_Type : option string;
  Residence_Type : option string;
  Avg_Glucose_Level : Q;
  BMI : option Q;
  Smoking_Status : option string;
  Stroke : Z
}.

Definition gender_map : gmap Z string :=
  {[ 0 := "Female"; 1 := "Male" ]}.

Definition work_type_map : gmap Z string :=
  {[ 0 := "Never Worked"; 1 := "Private"; 2 := "Self-employed";
     3 := "Govt Job"; 4 := "Children" ]}.

Definition residence_type_map : gmap Z string :=
  {[ 0 := "Rural"; 1 := "Urban" ]}.

Definition smoking_status_map : gmap Z string :=
  {[ 0 := "Unknown"; 1 := "Formerly Smoked"; 2 := "Never Smoked";
     3 := "Smokes" ]}.

(** [load_data]: the four coded columns go through their table, the other
    columns are kept. *)
Definition relabel (r : CsvRow) : Patient :=
  {| ID := csv_id r;
     Gender := gender_map !! csv_gender r;
     Age := csv_age r;
     Hypertension := csv_hypertension r;
     Heart_Disease := csv_heart_disease r;
     Ever_Married := csv_ever_married r;
     Work_Type := work_type_map !! csv_work_type r;
     Residence_Type := residence_type_map !! csv_residence_type r;
     Avg_Glucose_Level := csv_avg_glucose_level r;
     BMI := csv_bmi r;
     Smoking_Status := smoking_status_map !! csv_smoking_status r;
     Stroke := csv_stroke r |}.

Definition load_data (csv : list CsvRow) : list Patient := relabel <$> csv.

(** *** What the script hands to the dashboard *)

Inductive Number :=
| Int (n : Z)
| Float (x : option Q).

Inductive Element :=
| SidebarHeader (text : string)
| Slider (label : string) (min_value max_value : Z) (value : Z * Z)
| Multiselect (label : string) (options default : list string)
| Title (text : string)
| Header (text : string)
| Subheader (text : string)
| Markdown (text : string)
| Metric (label : string) (value : Number)
| Pie (title : string) (names : list string) (values : list Z)
| Bar (title : string) (data_frame : Table) (y : list Z)
| Line (title : string) (data_frame : list (Q * option Q))
| Box (title : string) (data_frame : list Patient)
| Insights (glucose bmi : option Q) (smoking : string)
    (hypertension heart_disease stroke : option Q).

(** A run appends elements and ends normally or with an exception. *)
Definition M (A : Type) : Type := (list Element * result A)%type.

Global Instance M_ret : MRet M := λ A a, ([], Ok a).

Global Instance M_bind : MBind M := λ A B f m,
  match m.2 with
  | Ok a => ((m.1 ++ (f a).1)%list, (f a).2)
  | Raise e => (m.1, Raise e)
  end.

Definition emit (e : Element) : M unit := ([e], Ok ()).

Definition lift {A} (r : result A) : M A := ([], r).

(** *** Sidebar *)

(** What the user did with each control; [None]: the control was not
    touched and returns its default. *)
Record User := {
  age_choice : option (Z * Z);
  gender_choice : option (list string);
  smoking_choice : option (list string)
}.

Definition untouched : User :=
  {| age_choice := None; gender_choice := None; smoking_choice := None |}.

Record Controls := {
  age_range : Z * Z;
  selected_genders : list string;
  selected_smoking : list string
}.

Definition sidebar (df : list Patient) (u : User) : M Controls :=
  emit (SidebarHeader "Filters");;
  lo ← lift (int (series_min (Age <$> df)));
  hi ← lift (int (series_max (Age <$> df)));
  emit (Slider "Select Age Range:" lo hi (lo, hi));;
  let genders := unique (dropna (Gender <$> df)) in
  emit (Multiselect "Select Gender:" genders genders);;
  let smoking := unique (dropna (Smoking_Status <$> df)) in
  emit (Multiselect "Select Smoking Status:" smoking smoking);;
  mret {| age_range := default (lo, hi) (age_choice u);
          selected_genders := default genders (gender_choice u);
          selected_smoking := default smoking (smoking_choice u) |}.

(** *** Filter *)

Definition filtered_df (df : list Patient) (age_range : Z * Z)
    (selected_genders selected_smoking : list string) : list Patient :=
  getitem_mask df
    (mask_and
       (mask_and
          (mask_and (ge (Age <$> df) age_range.1) (le (Age <$> df) age_range.2))
          (isin (Gender <$> df) selected_genders))
       (isin (Smoking_Status <$> df) selected_smoking)).

(** The statement [filtered_df = df[...]]: it binds [filtered_df] to a new
    table and leaves [df] bound to the loaded one. *)
Record Globals := {
  g_df : list Patient;
  g_filtered_df : list Patient
}.

Definition filter_stmt (df : list Patient) (ctl : Controls) : Globals :=
  {| g_df := df;
     g_filtered_df :=
       filtered_df df (age_range ctl) (selected_genders ctl) (selected_smoking ctl) |}.

(** *** KPI cards *)

Definition kpi_cards `{FloatArith} (df : list Patient) : M unit :=
  emit (Metric "Total Patients" (Int (Z.of_nat (length df))));;
  emit (Metric "Average Glucose Level" (Float (mean (Avg_Glucose_Level <$> df))));;
  emit (Metric "Average BMI" (Float (mean_skipna (BMI <$> df))));;
  emit (Metric "Stroke Cases" (Int (sum_int64 (Stroke <$> df)))).

(** *** Charts *)

Definition gender_counts (view : list Patient) : list (string * nat) :=
  value_counts (Gender <$> view).

Definition stroke_by_age (view : list Patient) : Table :=
  unstack 0 (groupby2_size ((λ r, (Age r, Stroke r)) <$> view)).

(** The dict [counts]; the difference is int64 arithmetic. *)
Definition counts (view : list Patient) : list (string * Z) :=
  [ ("Hypertension", sum_int64 (Hypertension <$> view));
    ("Heart Disease", sum_int64 (Heart_Disease <$> view));
    ("Neither",
      wrap64 (wrap64 (Z.of_nat (length view) - sum_int64 (Hypertension <$> view))
              - sum_int64 (Heart_Disease <$> view))) ].

Definition avg_glucose_by_age `{FloatArith} (view : list Patient) :
    list (Q * option Q) :=
  groupby_mean ((λ r, (Age r, Avg_Glucose_Level r)) <$> view).

(** [px.bar(data_frame, x=data_frame.index, y=y)].  When every entry of
    [y] is the label of a column, the frame is plotted in wide form, one
    bar series per column.  Otherwise [y] is not read as a list of
    columns but as a column of data of its own, which must be as long as
    [x]: the call raises ValueError when the lengths differ.  A frame
    without rows is accepted. *)
Definition px_bar (data_frame : Table) (y : list Z) : result unit :=
  if decide (Forall (λ c, c ∈ columns data_frame) y) then Ok ()
  else
    match index data_frame with
    | [] => Ok ()
    | _ =>
        if decide (length y = length (index data_frame)) then Ok ()
        else Raise ValueError
    end.

Definition charts `{FloatArith} (view : list Patient) : M unit :=
  emit (Subheader "Gender Distribution");;
  emit (Pie "Gender Distribution"
          (fst <$> gender_counts view)
          ((λ e, Z.of_nat e.2) <$> gender_counts view));;
  emit (Subheader "Stroke Cases by Age");;
  lift (px_bar (stroke_by_age view) [0; 1]);;
  emit (Bar "Stroke Cases by Age" (stroke_by_age view) [0; 1]);;
  emit (Subheader "Hypertension vs Heart Disease");;
  emit (Pie "Hypertension vs Heart Disease"
          (fst <$> counts view) (snd <$> counts view));;
  emit (Subheader "Average Glucose Level by Age");;
  emit (Line "Average Glucose Level by Age" (avg_glucose_by_age view));;
  emit (Subheader "BMI Distribution by Gender");;
  emit (Box "BMI Distribution by Gender" view).

(** *** Insights *)

Definition insights `{FloatArith} (df : list Patient) : M unit :=
  let glucose := mean (Avg_Glucose_Level <$> df) in
  let bmi := mean_skipna (BMI <$> df) in
  smoking ← lift (getitem0 (mode (Smoking_Status <$> df)));
  emit (Insights glucose bmi smoking
          (scale 100 (mean_int (Hypertension <$> df)))
          (scale 100 (mean_int (Heart_Disease <$> df)))
          (scale 100 (mean_int (Stroke <$> df)))).

Definition recommendations : string :=
"
**Recommendations:**

- Encourage regular health check-ups for patients above a certain age.
- Focus on preventive measures for patients with hypertension or heart disease.
- Promote awareness campaigns about the risks of smoking.
".

(** *** The whole script *)

(** The script returns the tables bound to [df] and [filtered_df] when it
    ends. *)
Definition script `{FloatArith} (csv : list CsvRow) (u : User) : M Globals :=
  let df := load_data csv in
  ctl ← sidebar df u;
  let g := filter_stmt df ctl in
  emit (Title "Stroke Data Dashboard");;
  kpi_cards (g_df g);;
  emit (Markdown "---");;
  charts (g_filtered_df g);;
  emit (Markdown "---");;
  emit (Header "Insights");;
  insights (g_df g);;
  emit (Markdown recommendations);;
  mret g.

(** ** Reading a run *)

(** The KPI cards among the emitted elements. *)
Definition metrics (es : list Element) : list (string * Number) :=
  omap (λ e, match e with Metric l v => Some (l, v) | _ => None end) es.

(** The insight blocks among the emitted elements. *)
Definition insight_blocks (es : list Element) : list Element :=
  omap (λ e, match e with Insights _ _ _ _ _ _ => Some e | _ => None end) es.

(** The view of a run: the table bound to [filtered_df]; no view when the
    sidebar raises. *)
Definition run_view (csv : list CsvRow) (u : User) : list Patient :=
  match (sidebar (load_data csv) u).2 with
  | Ok ctl => g_filtered_df (filter_stmt (load_data csv) ctl)
  | Raise _ => []
  end.

(** ** The data model of the specification *)

(** A flag column holds 0 or 1. *)
Definition flag (z : Z) : Prop := z = 0 ∨ z = 1.

Definition condition_flags (df : list Patient) : Prop :=
  Forall (λ r, flag (Hypertension r) ∧ flag (Heart_Disease r)) df.

Definition stroke_flags (df : list Patient) : Prop :=
  Forall (λ r, flag (Stroke r)) df.

(** Both stroke outcomes occur in a view. *)
Definition both_outcomes (view : list Patient) : Prop :=
  0 ∈ Stroke <$> view ∧ 1 ∈ Stroke <$> view.

(** The sum of integers, without wrap-around. *)
Definition sumZ (s : list Z) : Z := foldr Z.add 0 s.

(** [m] is a most frequent label of the column. *)
Definition is_modal (m : string) (s : list (option string)) : Prop :=
  Some m ∈ s ∧ ∀ l, (occurrences l (dropna s) ≤ occurrences m (dropna s))%nat.

(** [m] is the least (greatest) age of a column. *)
Definition is_minimum (m : Q) (s : list Q) : Prop :=
  m ∈ s ∧ Forall (λ x, m <= x)%Q s.

Definition is_maximum (m : Q) (s : list Q) : Prop :=
  m ∈ s ∧ Forall (λ x, x <= m)%Q s.

(** [k] is the integer part of [x]: [x] rounded toward zero. *)
Definition integer_part (k : Z) (x : Q) : Prop :=
  ((0 <= x → inject_Z k <= x ∧ x < inject_Z (k + 1))
   ∧ (x <= 0 → inject_Z (k - 1) < x ∧ x <= inject_Z k))%Q.

(** The age range the user selected, if any, lies inside the slider. *)
Definition within_slider (df : list Patient) (u : User) : Prop :=
  ∀ a b lo hi, age_choice u = Some (a, b) →
    int (series_min (Age <$> df)) = Ok lo →
    int (series_max (Age <$> df)) = Ok hi →
    (lo ≤ a ∧ a ≤ b ∧ b ≤ hi)%Z.

End Dashboard.

(** ** Sample files *)

Module Samples.
Import Dashboard.
Local Open Scope string_scope.

Definition row (id gender : Z) (age : Q) (hypertension heart_disease : Z)
    (smoking_status stroke : Z) : CsvRow :=
  {| csv_id := id;
     csv_gender := gender;
     csv_age := age;
     csv_hypertension := hypertension;
     csv_heart_disease := heart_disease;
     csv_ever_married := 1;
     csv_work_type := 1;
     csv_residence_type := 1;
     csv_avg_glucose_level := 105 # 1;
     csv_bmi := Some (28 # 1);
     csv_smoking_status := smoking_status;
     csv_stroke := stroke |}.

(** Two patients, the older one aged 45.5. *)
Definition half_year : list CsvRow :=
  [ row 1 1 (45 # 1) 0 0 3 1; row 2 0 (91 # 2) 0 0 2 0 ].

(** Two patients of whole-number ages; the first has both conditions. *)
Definition whole_years : list CsvRow :=
  [ row 1 1 (45 # 1) 1 1 3 1; row 2 0 (52 # 1) 0 0 2 0 ].

(** One patient whose smoking code is not in the table. *)
Definition unknown_smoking : list CsvRow :=
  [ row 1 1 (45 # 1) 0 0 9 1 ].

(** Two patients; the second has a gender code that is not in the table. *)
Definition unknown_gender : list CsvRow :=
  [ row 1 1 (45 # 1) 0 0 3 1; row 2 7 (52 # 1) 0 0 2 0 ].

(** The example of the specification: a man who smokes and had a stroke,
    a woman who never smoked and had none, both aged 45. *)
Definition same_age : list CsvRow :=
  [ row 1 1 (45 # 1) 0 0 3 1; row 2 0 (45 # 1) 0 0 2 0 ].

(** The same row with another glucose level and BMI. *)
Definition measured (glucose : Q) (bmi : option Q) (r : CsvRow) : CsvRow :=
  {| csv_id := csv_id r;
     csv_gender := csv_gender r;
     csv_age := csv_age r;
     csv_hypertension := csv_hypertension r;
     csv_heart_disease := csv_heart_disease r;
     csv_ever_married := csv_ever_married r;
     csv_work_type := csv_work_type r;
     csv_residence_type := csv_residence_type r;
     csv_avg_glucose_level := glucose;
     csv_bmi := bmi;
     csv_smoking_status := csv_smoking_status r;
     csv_stroke := csv_stroke r |}.

(** Four patients; the second has no BMI.  One of four has hypertension,
    two have a heart disease, three had a stroke; both men are in the
    table with different outcomes. *)
Definition clinic : list CsvRow :=
  [ measured (100 # 1) (Some (28 # 1)) (row 1 1 (45 # 1) 1 1 3 1);
    measured (110 # 1) None (row 2 0 (52 # 1) 0 0 2 1);
    measured (90 # 1) (Some (30 # 1)) (row 3 1 (60 # 1) 0 1 2 0);
    measured (120 # 1) (Some (26 # 1)) (row 4 0 (38 # 1) 0 0 1 1) ].

(** Three patients; the third has a gender code and a smoking code that
    are not in the tables. *)
Definition odd_codes : list CsvRow :=
  [ row 1 1 (45 # 1) 0 0 3 1; row 2 0 (52 # 1) 0 0 2 0;
    row 3 7 (50 # 1) 0 0 9 0 ].

(** The men alone, of every age and smoking status. *)
Definition men : User :=
  {| age_choice := None; gender_choice := Some ["Male"]; smoking_choice := None |}.

(** A wide and a narrow selection. *)
Definition wide : Controls :=
  {| age_range := (40, 60);
     selected_genders := ["Male"; "Female"];
     selected_smoking := ["Smokes"; "Never Smoked"] |}.

Definition narrow : Controls :=
  {| age_range := (45, 50);
     selected_genders := ["Male"];
     selected_smoking := ["Smokes"] |}.

End Samples.

(** * Facts about the dataframe operations and the runs *)

Import Pandas Dashboard.
Local Open Scope Z_scope.

(** Turn [H : Forall P l] into [H : ∀ x, x ∈ l → P x]. *)
Ltac pointwise H :=
  let H' := fresh in
  pose proof (proj1 (Forall_forall _ _) H) as H'; clear H; rename H' into H;
  cbv beta in H.

(** *** Masks and boolean indexing *)

Section Masks.
Context {A : Type}.
Implicit Types (df : list A) (f g : A → bool).

Lemma mask_and_fmap f g df :
  mask_and (f <$> df) (g <$> df) = (λ r, f r && g r) <$> df.
Proof.
  unfold mask_and. induction df as [|r df IH]; [done|].
  rewrite !fmap_cons. cbn [zip_with]. by rewrite IH.
Qed.

Lemma getitem_mask_fmap f (P : A → Prop) `{!∀ r, Decision (P r)} df :
  (∀ r, f r = true ↔ P r) →
  getitem_mask df (f <$> df) = filter P df.
Proof.
  intros Hf. induction df as [|r df IH]; [done|].
  rewrite fmap_cons. cbn [getitem_mask]. rewrite IH. destruct (f r) eqn:E.
  - rewrite filter_cons_True; [done|]. by apply Hf.
  - rewrite filter_cons_False; [done|]. rewrite <- Hf. congruence.
Qed.

Lemma filter_sublist_impl (P P' : A → Prop)
    `{!∀ r, Decision (P r)} `{!∀ r, Decision (P' r)} df :
  (∀ r, P' r → P r) → filter P' df `sublist_of` filter P df.
Proof.
  intros Himp. induction df as [|r df IH]; simpl; [done|].
  destruct (decide (P' r)) as [H'|H'].
  - rewrite (filter_cons_True P'), (filter_cons_True P); auto.
    by apply sublist_skip.
  - rewrite (filter_cons_False P'); [|done].
    destruct (decide (P r)).
    + rewrite filter_cons_True; [|done]. by apply sublist_cons.
    + by rewrite filter_cons_False.
Qed.
End Masks.

(** The mask of the script as a predicate on rows. *)
Lemma filtered_df_filter (df : list Patient) (a b : Z) (gs ss : list string) :
  filtered_df df (a, b) gs ss =
  filter (λ r, (inject_Z a <= Age r)%Q ∧ (Age r <= inject_Z b)%Q
               ∧ label_in (Gender r) gs ∧ label_in (Smoking_Status r) ss) df.
Proof.
  unfold filtered_df. cbn [fst snd].
  set (keep := λ r : Patient,
    Qle_bool (inject_Z a) (Age r) && Qle_bool (Age r) (inject_Z b)
    && bool_decide (label_in (Gender r) gs)
    && bool_decide (label_in (Smoking_Status r) ss)).
  assert (mask_and
            (mask_and (mask_and (ge (Age <$> df) a) (le (Age <$> df) b))
               (isin (Gender <$> df) gs))
            (isin (Smoking_Status <$> df) ss) = keep <$> df) as ->.
  { unfold ge, le, isin. by rewrite <- !list_fmap_compose, !mask_and_fmap. }
  apply getitem_mask_fmap. intros r. unfold keep.
  rewrite !andb_true_iff, !Qle_bool_iff, !bool_decide_eq_true. tauto.
Qed.

Lemma label_in_mono (c : option string) (vs vs' : list string) :
  vs' ⊆ vs → label_in c vs' → label_in c vs.
Proof. destruct c; simpl; [|done]. intros Hsub ?. by apply Hsub. Qed.

(** *** Least and greatest age, truncation *)

Section Extremes.
Implicit Types (s : list Q) (m x : Q).

Lemma foldl_min_spec x s :
  let m := foldl (λ m y, if Qle_bool m y then m else y) x s in
  m ∈ x :: s ∧ (m <= x)%Q ∧ Forall (λ y, m <= y)%Q s.
Proof.
  revert x. induction s as [|y s IH]; intros x; simpl.
  - split_and!; [left|apply Qle_refl|constructor].
  - destruct (Qle_bool x y) eqn:E.
    + destruct (IH x) as (Hin & Hle & Hall). apply Qle_bool_iff in E.
      split_and!; [|done|constructor; [by etrans|done]].
      apply elem_of_cons in Hin as [->|Hin]; [left|by do 2 right].
    + destruct (IH y) as (Hin & Hle & Hall).
      assert (y <= x)%Q as Hyx.
      { destruct (Qlt_le_dec y x) as [?%Qlt_le_weak|Hxy]; [done|].
        apply Qle_bool_iff in Hxy. congruence. }
      split_and!; [by right|by etrans|by constructor].
Qed.

Lemma foldl_max_spec x s :
  let m := foldl (λ m y, if Qle_bool y m then m else y) x s in
  m ∈ x :: s ∧ (x <= m)%Q ∧ Forall (λ y, y <= m)%Q s.
Proof.
  revert x. induction s as [|y s IH]; intros x; simpl.
  - split_and!; [left|apply Qle_refl|constructor].
  - destruct (Qle_bool y x) eqn:E.
    + destruct (IH x) as (Hin & Hle & Hall). apply Qle_bool_iff in E.
      split_and!; [|done|constructor; [by etrans|done]].
      apply elem_of_cons in Hin as [->|Hin]; [left|by do 2 right].
    + destruct (IH y) as (Hin & Hle & Hall).
      assert (x <= y)%Q as Hyx.
      { destruct (Qlt_le_dec x y) as [?%Qlt_le_weak|Hxy]; [done|].
        apply Qle_bool_iff in Hxy. congruence. }
      split_and!; [by right|by etrans|by constructor].
Qed.

Lemma series_min_spec s m : series_min s = Some m → is_minimum m s.
Proof.
  destruct s as [|x s]; simpl; [done|]. intros [= <-].
  destruct (foldl_min_spec x s) as (Hin & Hle & Hall).
  split; [done|by constructor].
Qed.

Lemma series_max_spec s m : series_max s = Some m → is_maximum m s.
Proof.
  destruct s as [|x s]; simpl; [done|]. intros [= <-].
  destruct (foldl_max_spec x s) as (Hin & Hle & Hall).
  split; [done|by constructor].
Qed.

Lemma series_min_is_Some s : s ≠ [] → is_Some (series_min s).
Proof. destruct s; [done|]. by eexists. Qed.

Lemma series_max_is_Some s : s ≠ [] → is_Some (series_max s).
Proof. destruct s; [done|]. by eexists. Qed.

(** [truncate] rounds toward zero. *)
Lemma truncate_toward_zero x :
  ((0 <= x → inject_Z (truncate x) <= x < inject_Z (truncate x + 1))
   ∧ (x <= 0 → inject_Z (truncate x - 1) < x <= inject_Z (truncate x)))%Q.
Proof.
  destruct x as [n d]. unfold truncate, Qle, Qlt; simpl.
  rewrite !Z.mul_1_r, Z.mul_0_l.
  pose proof (Z.quot_rem' n (Z.pos d)) as Hqr.
  pose proof (Z.rem_bound_pos_pos n (Z.pos d)) as Hpos.
  pose proof (Z.rem_bound_pos_neg n (Z.pos d)) as Hneg.
  set (q := n `quot` Z.pos d) in *. set (r := n `rem` Z.pos d) in *.
  clearbody q r. split; intros Hn; nia.
Qed.

(** Truncation does not exceed a non-negative number. *)
Lemma truncate_le x : (0 <= x)%Q → (inject_Z (truncate x) <= x)%Q.
Proof.
  destruct x as [n d]. unfold truncate, Qle; simpl. intros Hn.
  rewrite Z.mul_1_r in *. rewrite Z.quot_div_nonneg by lia.
  rewrite Z.mul_comm. apply Z.mul_div_le. lia.
Qed.

(** Truncation leaves a whole number as it is. *)
Lemma truncate_whole x k : (x == inject_Z k)%Q → truncate x = k.
Proof.
  destruct x as [n d]. unfold truncate, Qeq; simpl. intros Hn.
  rewrite Z.mul_1_r in Hn. subst n. apply Z.quot_mul. lia.
Qed.
End Extremes.

(** *** Labels and options *)

Section Labels.
Implicit Types (s : list string) (col : list (option string)).

Lemma elem_of_unique s x : x ∈ unique s ↔ x ∈ s.
Proof.
  induction s as [|y s IH]; simpl; [done|].
  rewrite !elem_of_cons, list_elem_of_filter, IH.
  destruct (decide (x = y)); tauto.
Qed.

Lemma elem_of_dropna {A} (c : list (option A)) (x : A) : x ∈ dropna c ↔ Some x ∈ c.
Proof.
  unfold dropna. rewrite list_elem_of_omap. split.
  - intros (y & Hy & Heq). simpl in Heq. by subst.
  - intros H. by exists (Some x).
Qed.

(** Every label of the column is among the options of its multiselect. *)
Lemma label_in_options col c :
  c ∈ col → is_Some c → label_in c (unique (dropna col)).
Proof.
  intros Hin [l ->]. simpl. by apply elem_of_unique, elem_of_dropna.
Qed.
End Labels.

Lemma filter_all {A} (P : A → Prop) `{!∀ x, Decision (P x)} (l : list A) :
  Forall P l → filter P l = l.
Proof.
  induction 1 as [|x l Hx Hl IH]; [done|].
  rewrite filter_cons_True by done. by rewrite IH.
Qed.

(** *** Runs of the sidebar and of the script *)

Lemma sidebar_run df u mn mx :
  series_min (Age <$> df) = Some mn →
  series_max (Age <$> df) = Some mx →
  sidebar df u =
    ([SidebarHeader "Filters";
      Slider "Select Age Range:" (truncate mn) (truncate mx) (truncate mn, truncate mx);
      Multiselect "Select Gender:"
        (unique (dropna (Gender <$> df))) (unique (dropna (Gender <$> df)));
      Multiselect "Select Smoking Status:"
        (unique (dropna (Smoking_Status <$> df)))
        (unique (dropna (Smoking_Status <$> df)))],
     Ok {| age_range := default (truncate mn, truncate mx) (age_choice u);
           selected_genders := default (unique (dropna (Gender <$> df))) (gender_choice u);
           selected_smoking :=
             default (unique (dropna (Smoking_Status <$> df))) (smoking_choice u) |}).
Proof. intros Hmn Hmx. unfold sidebar. by rewrite Hmn, Hmx. Qed.

Lemma load_data_nonempty csv : csv ≠ [] → Age <$> load_data csv ≠ [].
Proof. by destruct csv. Qed.

Lemma elem_of_load_data csv r :
  r ∈ load_data csv ↔ ∃ r0, r0 ∈ csv ∧ r = relabel r0.
Proof.
  unfold load_data. rewrite list_elem_of_fmap.
  split; intros (r0 & ? & ?); by exists r0.
Qed.

Lemma bind_ok {A B} (m : M A) (f : A → M B) es a :
  m = (es, Ok a) → m ≫= f = ((es ++ (f a).1)%list, (f a).2).
Proof. by intros ->. Qed.

Lemma kpi_cards_run `{FloatArith} df :
  kpi_cards df =
    ([Metric "Total Patients" (Int (Z.of_nat (length df)));
      Metric "Average Glucose Level" (Float (mean (Avg_Glucose_Level <$> df)));
      Metric "Average BMI" (Float (mean_skipna (BMI <$> df)));
      Metric "Stroke Cases" (Int (sum_int64 (Stroke <$> df)))], Ok ()).
Proof. done. Qed.

(** The charts stop at the bar chart when [px_bar] raises. *)
Lemma charts_run `{FloatArith} view :
  charts view =
    match px_bar (stroke_by_age view) [0; 1] with
    | Ok _ =>
        ([ Subheader "Gender Distribution";
           Pie "Gender Distribution"
             (fst <$> gender_counts view)
             ((λ e, Z.of_nat e.2) <$> gender_counts view);
           Subheader "Stroke Cases by Age";
           Bar "Stroke Cases by Age" (stroke_by_age view) [0; 1];
           Subheader "Hypertension vs Heart Disease";
           Pie "Hypertension vs Heart Disease"
             (fst <$> counts view) (snd <$> counts view);
           Subheader "Average Glucose Level by Age";
           Line "Average Glucose Level by Age" (avg_glucose_by_age view);
           Subheader "BMI Distribution by Gender";
           Box "BMI Distribution by Gender" view ], Ok ())
    | Raise e =>
        ([ Subheader "Gender Distribution";
           Pie "Gender Distribution"
             (fst <$> gender_counts view)
             ((λ e, Z.of_nat e.2) <$> gender_counts view);
           Subheader "Stroke Cases by Age" ], Raise e)
    end.
Proof. unfold charts. by destruct (px_bar _ _) as [[]|e]. Qed.

Lemma script_run `{FloatArith} csv u es ctl :
  sidebar (load_data csv) u = (es, Ok ctl) →
  let view := g_filtered_df (filter_stmt (load_data csv) ctl) in
  script csv u =
    match (charts view).2 with
    | Ok _ =>
        ((es ++ Title "Stroke Data Dashboard" :: (kpi_cards (load_data csv)).1
             ++ Markdown "---" :: (charts view).1
             ++ Markdown "---" :: Header "Insights" :: (insights (load_data csv)).1
             ++ match (insights (load_data csv)).2 with
                | Ok _ => [Markdown recommendations]
                | Raise _ => []
                end)%list,
         match (insights (load_data csv)).2 with
         | Ok _ => Ok (filter_stmt (load_data csv) ctl)
         | Raise e => Raise e
         end)
    | Raise e =>
        ((es ++ Title "Stroke Data Dashboard" :: (kpi_cards (load_data csv)).1
             ++ Markdown "---" :: (charts view).1)%list, Raise e)
    end.
Proof.
  intros Hs. cbv zeta. unfold script. rewrite (bind_ok _ _ _ _ Hs).
  change (g_df (filter_stmt (load_data csv) ctl)) with (load_data csv).
  destruct (charts _) as [ces [[]|e]]; [|done].
  destruct (insights (load_data csv)) as [ies [[]|e]]; [done|].
  cbn [fst snd]. by rewrite app_nil_r.
Qed.

Lemma run_view_sidebar csv u es ctl :
  sidebar (load_data csv) u = (es, Ok ctl) →
  run_view csv u = g_filtered_df (filter_stmt (load_data csv) ctl).
Proof. unfold run_view. by intros ->. Qed.

(** The run up to the end of the charts, in terms of its view. *)
Lemma script_run_view `{FloatArith} csv u :
  csv ≠ [] →
  ∃ es ctl,
    sidebar (load_data csv) u = (es, Ok ctl)
    ∧ run_view csv u = g_filtered_df (filter_stmt (load_data csv) ctl)
    ∧ script csv u =
        match (charts (run_view csv u)).2 with
        | Ok _ =>
            ((es ++ Title "Stroke Data Dashboard" :: (kpi_cards (load_data csv)).1
                 ++ Markdown "---" :: (charts (run_view csv u)).1
                 ++ Markdown "---" :: Header "Insights" :: (insights (load_data csv)).1
                 ++ match (insights (load_data csv)).2 with
                    | Ok _ => [Markdown recommendations]
                    | Raise _ => []
                    end)%list,
             match (insights (load_data csv)).2 with
             | Ok _ => Ok (filter_stmt (load_data csv) ctl)
             | Raise e => Raise e
             end)
        | Raise e =>
            ((es ++ Title "Stroke Data Dashboard" :: (kpi_cards (load_data csv)).1
                 ++ Markdown "---" :: (charts (run_view csv u)).1)%list, Raise e)
        end.
Proof.
  intros Hne.
  destruct (series_min_is_Some (Age <$> load_data csv)) as [mn Hmn];
    [by apply load_data_nonempty|].
  destruct (series_max_is_Some (Age <$> load_data csv)) as [mx Hmx];
    [by apply load_data_nonempty|].
  pose proof (sidebar_run _ u _ _ Hmn Hmx) as Hs.
  eexists _, _. split; [exact Hs|].
  rewrite (run_view_sidebar _ _ _ _ Hs). split; [done|].
  apply (script_run _ _ _ _ Hs).
Qed.

Lemma insights_run `{FloatArith} df :
  insights df =
    match getitem0 (mode (Smoking_Status <$> df)) with
    | Ok m =>
        ([Insights (mean (Avg_Glucose_Level <$> df)) (mean_skipna (BMI <$> df)) m
            (scale 100 (mean_int (Hypertension <$> df)))
            (scale 100 (mean_int (Heart_Disease <$> df)))
            (scale 100 (mean_int (Stroke <$> df)))], Ok ())
    | Raise e => ([], Raise e)
    end.
Proof. unfold insights. by destruct (getitem0 _). Qed.

Lemma load_data_columns csv :
  length (load_data csv) = length csv
  ∧ Avg_Glucose_Level <$> load_data csv = csv_avg_glucose_level <$> csv
  ∧ BMI <$> load_data csv = csv_bmi <$> csv
  ∧ Hypertension <$> load_data csv = csv_hypertension <$> csv
  ∧ Heart_Disease <$> load_data csv = csv_heart_disease <$> csv
  ∧ Stroke <$> load_data csv = csv_stroke <$> csv.
Proof.
  unfold load_data. rewrite length_fmap, <- !list_fmap_compose. done.
Qed.

(** *** The most frequent label *)

Section Mode.
Implicit Types (l x : string) (s : list string) (col : list (option string)).

Lemma elem_of_insert_label x y s : x ∈ insert_label y s ↔ x = y ∨ x ∈ s.
Proof.
  induction s as [|z s IH]; simpl.
  - rewrite elem_of_cons. done.
  - destruct (String.leb y z); rewrite !elem_of_cons, ?IH; tauto.
Qed.

Lemma elem_of_sort_labels x s : x ∈ sort_labels s ↔ x ∈ s.
Proof.
  unfold sort_labels. induction s as [|z s IH]; simpl; [done|].
  rewrite elem_of_insert_label, elem_of_cons, IH. done.
Qed.

Lemma occurrences_pos l s : (0 < occurrences l s)%nat → l ∈ s.
Proof.
  unfold occurrences. intros Hpos.
  destruct (filter (λ y, y = l) s) as [|x t] eqn:E; simpl in Hpos; [lia|].
  assert (x ∈ filter (λ y, y = l) s) as Hx by (rewrite E; left).
  apply list_elem_of_filter in Hx as [-> ?]. done.
Qed.

Lemma elem_of_mode col m : m ∈ mode col → is_modal m col.
Proof.
  unfold mode. rewrite elem_of_sort_labels, list_elem_of_filter, elem_of_unique.
  intros [Htop Hm]. split; [by apply elem_of_dropna|].
  intros l. rewrite Htop.
  destruct (occurrences l (dropna col)) as [|n] eqn:E; [lia|].
  rewrite <- E. apply max_list_elem_of_le.
  apply list_elem_of_fmap. exists l. split; [done|].
  apply elem_of_unique, occurrences_pos. lia.
Qed.

Lemma mode_nonempty col : dropna col ≠ [] → mode col ≠ [].
Proof.
  intros Hne. unfold mode.
  set (vals := dropna col) in *.
  assert ((λ l, occurrences l vals) <$> unique vals ≠ []) as Hu.
  { destruct vals; [done|]. simpl. done. }
  apply max_list_elem_of, list_elem_of_fmap in Hu as (l & Htop & Hl).
  intros Hnil.
  assert (l ∈ sort_labels (filter (λ l, occurrences l vals
            = max_list ((λ l, occurrences l vals) <$> unique vals)) (unique vals))) as Hin.
  { apply elem_of_sort_labels, list_elem_of_filter. done. }
  rewrite Hnil in Hin. by apply elem_of_nil in Hin.
Qed.

Lemma mode_all_missing col : dropna col = [] → mode col = [].
Proof. unfold mode. by intros ->. Qed.

Lemma getitem0_mode col :
  dropna col ≠ [] → ∃ m, getitem0 (mode col) = Ok m ∧ is_modal m col.
Proof.
  intros Hne%mode_nonempty.
  destruct (mode col) as [|m t] eqn:E; [done|].
  exists m. split; [done|]. apply elem_of_mode. rewrite E. left.
Qed.
End Mode.

Lemma smoking_labels_present csv :
  Exists (λ r, is_Some (smoking_status_map !! csv_smoking_status r)) csv →
  dropna (Smoking_Status <$> load_data csv) ≠ [].
Proof.
  intros (r0 & Hr0 & [l Hl])%Exists_exists Hnil.
  assert (l ∈ dropna (Smoking_Status <$> load_data csv)) as Hin.
  { apply elem_of_dropna, list_elem_of_fmap. exists (relabel r0).
    split; [done|]. apply elem_of_load_data. by exists r0. }
  rewrite Hnil in Hin. by apply elem_of_nil in Hin.
Qed.

Lemma smoking_labels_absent csv :
  Forall (λ r, smoking_status_map !! csv_smoking_status r = None) csv →
  dropna (Smoking_Status <$> load_data csv) = [].
Proof.
  induction 1 as [|r0 csv Hr0 _ IH]; [done|].
  unfold dropna in *. simpl. by rewrite Hr0.
Qed.

(** *** Relabelling at load time *)

Lemma load_data_labels csv :
  Gender <$> load_data csv = series_map gender_map (csv_gender <$> csv)
  ∧ Work_Type <$> load_data csv = series_map work_type_map (csv_work_type <$> csv)
  ∧ Residence_Type <$> load_data csv
    = series_map residence_type_map (csv_residence_type <$> csv)
  ∧ Smoking_Status <$> load_data csv
    = series_map smoking_status_map (csv_smoking_status <$> csv).
Proof.
  unfold load_data, series_map. rewrite <- !list_fmap_compose. done.
Qed.

Lemma tables_domain (k : Z) :
  (k < 0 ∨ 1 < k → gender_map !! k = None)
  ∧ (k < 0 ∨ 4 < k → work_type_map !! k = None)
  ∧ (k < 0 ∨ 1 < k → residence_type_map !! k = None)
  ∧ (k < 0 ∨ 3 < k → smoking_status_map !! k = None).
Proof.
  unfold gender_map, work_type_map, residence_type_map, smoking_status_map.
  split_and!; intros Hk;
    repeat (rewrite lookup_insert_ne by lia); apply lookup_singleton_ne; lia.
Qed.

(** *** Sums of flag columns *)

Lemma wrap64_small z : - 2 ^ 63 ≤ z < 2 ^ 63 → wrap64 z = z.
Proof. intros Hz. unfold wrap64. rewrite Z.mod_small; lia. Qed.

Lemma sumZ_flags s : Forall flag s → 0 ≤ sumZ s ≤ Z.of_nat (length s).
Proof.
  induction 1 as [|x s [->| ->] _ IH]; simpl; lia.
Qed.

Lemma sum_int64_flags s :
  Forall flag s → Z.of_nat (length s) < 2 ^ 63 → sum_int64 s = sumZ s.
Proof.
  unfold sum_int64. intros Hs Hlen.
  enough (∀ acc, 0 ≤ acc → acc + Z.of_nat (length s) < 2 ^ 63 →
            foldl (λ acc x, wrap64 (acc + x)) acc s = acc + sumZ s) as H.
  { rewrite H; lia. }
  clear Hlen. induction Hs as [|x s Hx Hs IH]; intros acc Hacc Hlen; simpl in *.
  - lia.
  - rewrite wrap64_small by (destruct Hx; lia).
    rewrite IH by (destruct Hx; lia). lia.
Qed.

Lemma Forall_sublist_of {A} (P : A → Prop) (l1 l2 : list A) :
  l1 `sublist_of` l2 → Forall P l2 → Forall P l1.
Proof.
  intros Hsub Hall. pointwise Hall. apply Forall_forall. intros x Hx.
  apply Hall. by apply (sublist_subseteq _ _ Hsub).
Qed.

Lemma filtered_df_sublist df rng gs ss : filtered_df df rng gs ss `sublist_of` df.
Proof. destruct rng. rewrite filtered_df_filter. apply sublist_filter. Qed.

(** *** Group keys, [unstack] and [loc] *)

Section Keys.
Implicit Types (x y : Q) (s : list Q).

Lemma elem_of_insert_key x y s : x ∈ insert_key y s → x = y ∨ x ∈ s.
Proof.
  induction s as [|z s IH]; simpl.
  - rewrite list_elem_of_singleton. tauto.
  - destruct (y ?= z)%Q; rewrite !elem_of_cons; [tauto|tauto|].
    intros [->|[->|?]%IH]; tauto.
Qed.

Lemma insert_key_covers x y s :
  (x == y)%Q ∨ (∃ z, z ∈ s ∧ (z == x)%Q) → ∃ z, z ∈ insert_key y s ∧ (z == x)%Q.
Proof.
  induction s as [|z s IH]; simpl.
  - intros [Hxy|(z & []%elem_of_nil & _)]. exists y. split; [left|by symmetry].
  - destruct (y ?= z)%Q eqn:E.
    + apply Qeq_alt in E. intros [Hxy|(w & Hw & Hwx)].
      * exists z. split; [left|]. by rewrite Hxy, E.
      * exists w. done.
    + intros [Hxy|(w & Hw & Hwx)].
      * exists y. split; [left|by symmetry].
      * exists w. split; [by right|done].
    + intros [Hxy|(w & [->|Hw]%elem_of_cons & Hwx)].
      * destruct IH as (w & Hw & Hwx); [by left|]. exists w. split; [by right|done].
      * exists z. split; [left|done].
      * destruct IH as (w' & Hw' & Hwx'); [right; by exists w|].
        exists w'. split; [by right|done].
Qed.

Lemma elem_of_sorted_keys x s : x ∈ sorted_keys s → x ∈ s.
Proof.
  unfold sorted_keys. induction s as [|y s IH]; simpl; [done|].
  intros [->|?]%elem_of_insert_key; [left|right; auto].
Qed.

Lemma sorted_keys_covers x s : x ∈ s → ∃ z, z ∈ sorted_keys s ∧ (z == x)%Q.
Proof.
  unfold sorted_keys. induction s as [|y s IH]; simpl.
  - by intros ?%elem_of_nil.
  - intros [->|Hx]%elem_of_cons; apply insert_key_covers; [by left|right; auto].
Qed.

Lemma elem_of_insert_keyZ (c d : Z) (l : list Z) :
  c ∈ insert_keyZ d l ↔ c = d ∨ c ∈ l.
Proof.
  induction l as [|z l IH]; simpl.
  - rewrite list_elem_of_singleton, elem_of_nil. tauto.
  - destruct (Z.compare_spec d z) as [->| |]; rewrite !elem_of_cons, ?IH; tauto.
Qed.

Lemma elem_of_sorted_keysZ (c : Z) (l : list Z) : c ∈ sorted_keysZ l ↔ c ∈ l.
Proof.
  unfold sorted_keysZ. induction l as [|z l IH]; simpl; [done|].
  by rewrite elem_of_insert_keyZ, elem_of_cons, IH.
Qed.
End Keys.

Section Unstack.
Variable keys : list (Q * Z).

(** The number of rows of the group [(a, c)]. *)
Local Abbreviation group_rows a c :=
  (Z.of_nat (length (filter (λ p : Q * Z, (p.1 == a)%Q ∧ p.2 = c) keys))).

Lemma group_rows_proper a a' c : (a == a')%Q → group_rows a c = group_rows a' c.
Proof.
  intros Haa. do 2 f_equal. apply list_filter_iff. intros p.
  by rewrite Haa.
Qed.

Lemma group_rows_zero a c :
  (∀ p, p ∈ keys → (p.1 == a)%Q → p.2 ≠ c) → group_rows a c = 0.
Proof.
  intros Hno.
  destruct (filter (λ p : Q * Z, (p.1 == a)%Q ∧ p.2 = c) keys) as [|p l] eqn:E; [done|].
  assert (p ∈ filter (λ p : Q * Z, (p.1 == a)%Q ∧ p.2 = c) keys) as Hp
    by (rewrite E; left).
  apply list_elem_of_filter in Hp as [[Ha Hc] Hp]. by destruct (Hno p).
Qed.

Lemma elem_of_groupby2_size e :
  e ∈ groupby2_size keys ↔
  ∃ a c, a ∈ sorted_keys (fst <$> keys)
         ∧ c ∈ snd <$> filter (λ p, p.1 == a)%Q keys
         ∧ e = ((a, c), group_rows a c).
Proof.
  unfold groupby2_size. rewrite list_elem_of_bind. split.
  - intros (a & (c & He%list_elem_of_singleton & Hc)%list_elem_of_bind & Ha).
    rewrite elem_of_sorted_keysZ in Hc. by exists a, c.
  - intros (a & c & Ha & Hc & ->). exists a. split; [|done].
    apply list_elem_of_bind. exists c. split; [by apply list_elem_of_singleton|].
    by apply elem_of_sorted_keysZ.
Qed.

(** An observed pair of keys has its entry, under a key equal to [p.1]. *)
Lemma groupby2_size_covers p :
  p ∈ keys → ∃ a, (a == p.1)%Q ∧ ((a, p.2), group_rows a p.2) ∈ groupby2_size keys.
Proof.
  intros Hp.
  destruct (sorted_keys_covers p.1 (fst <$> keys)) as (a & Ha & Hap).
  { apply list_elem_of_fmap. by exists p. }
  exists a. split; [done|]. apply elem_of_groupby2_size. exists a, p.2.
  split_and!; [done| |done].
  apply list_elem_of_fmap. exists p. split; [done|].
  apply list_elem_of_filter. split; [by symmetry|done].
Qed.

Lemma lookup_group_groupby2_size a c :
  default 0 (lookup_group a c (groupby2_size keys)) = group_rows a c.
Proof.
  unfold lookup_group.
  destruct (find _ (groupby2_size keys)) as [e|] eqn:E; simpl.
  - apply find_some in E as [He Hpred]. apply list_elem_of_In in He.
    apply elem_of_groupby2_size in He as (a' & c' & _ & _ & ->). simpl in *.
    apply andb_true_iff in Hpred as [Ha%Qeq_bool_iff ->%bool_decide_eq_true].
    by apply group_rows_proper.
  - symmetry. apply group_rows_zero. intros p Hp Hpa Hpc.
    destruct (groupby2_size_covers p Hp) as (a' & Ha' & He).
    apply list_elem_of_In in He.
    apply (find_none _ _ E) in He. simpl in He.
    apply andb_false_iff in He as [Hne|Hne].
    + assert (Qeq_bool a' a = true); [|congruence].
      apply Qeq_bool_iff. by rewrite Ha'.
    + apply bool_decide_eq_false in Hne. done.
Qed.

Lemma elem_of_unstack_columns fill c :
  c ∈ columns (unstack fill (groupby2_size keys)) ↔ c ∈ snd <$> keys.
Proof.
  simpl. rewrite elem_of_sorted_keysZ, !list_elem_of_fmap. split.
  - intros (e & -> & (a & c' & _ & Hc & ->)%elem_of_groupby2_size). simpl.
    apply list_elem_of_fmap in Hc as (p & -> & [_ Hp]%list_elem_of_filter).
    by exists p.
  - intros (p & -> & Hp).
    destruct (groupby2_size_covers p Hp) as (a & _ & He).
    eexists. split; [|exact He]. done.
Qed.

Lemma unstack_index_covers fill p :
  p ∈ keys → ∃ a, a ∈ index (unstack fill (groupby2_size keys)) ∧ (a == p.1)%Q.
Proof.
  intros Hp. destruct (groupby2_size_covers p Hp) as (a & Hap & He).
  destruct (sorted_keys_covers a ((λ e, e.1.1) <$> groupby2_size keys))
    as (a' & Ha' & Haa).
  { apply list_elem_of_fmap. eexists. split; [|exact He]. done. }
  exists a'. split; [done|]. by rewrite Haa.
Qed.
End Unstack.

Lemma find_zip_fmap {A B} (f : A → bool) (h : A → B) (l : list A) :
  find (λ p, f p.1) (zip l (h <$> l)) = (λ x, (x, h x)) <$> find f l.
Proof.
  induction l as [|x l IH]; simpl; [done|]. by destruct (f x).
Qed.

Lemma find_eq_Z (c : Z) (l : list Z) :
  find (λ x, bool_decide (x = c)) l = if decide (c ∈ l) then Some c else None.
Proof.
  induction l as [|x l IH]; cbn [find].
  - case_decide as H; [by apply elem_of_nil in H|done].
  - rewrite IH. case_bool_decide as Hx.
    + subst. by rewrite decide_True by left.
    + destruct (decide (c ∈ l)) as [Hin|Hin].
      * by rewrite decide_True by by right.
      * rewrite decide_False; [done|].
        intros [?|?]%elem_of_cons; [congruence|done].
Qed.

(** A cell of the pivoted group sizes: the number of rows of the group
    when the column exists, no cell otherwise. *)
Lemma loc_unstack_groupby2_size (keys : list (Q * Z)) (p : Q * Z) (c : Z) :
  p ∈ keys →
  loc (unstack 0 (groupby2_size keys)) p.1 c =
    if decide (c ∈ snd <$> keys)
    then Some (Z.of_nat (length (filter (λ q : Q * Z, (q.1 == p.1)%Q ∧ q.2 = c) keys)))
    else None.
Proof.
  intros Hp. unfold loc, loc_row.
  set (t := unstack 0 (groupby2_size keys)).
  change (cells t) with
    ((λ a, (λ c, default 0 (lookup_group a c (groupby2_size keys))) <$> columns t)
       <$> index t).
  rewrite (find_zip_fmap (λ a, Qeq_bool a p.1)).
  destruct (find _ (index t)) as [a|] eqn:E; cbn [fmap option_fmap option_map mbind option_bind snd].
  - apply find_some in E as [_ Ha%Qeq_bool_iff].
    pose proof (find_zip_fmap (λ x, bool_decide (x = c))
      (λ c0, default 0 (lookup_group a c0 (groupby2_size keys))) (columns t)) as Hfind.
    cbv beta in Hfind. rewrite Hfind, find_eq_Z. clear Hfind.
    destruct (decide (c ∈ columns t)) as [Hc|Hc]; simpl.
    + rewrite decide_True by by apply (elem_of_unstack_columns keys 0).
      rewrite lookup_group_groupby2_size. f_equal. by apply group_rows_proper.
    + rewrite decide_False; [done|]. by rewrite <- (elem_of_unstack_columns keys 0).
  - destruct (unstack_index_covers keys 0 p Hp) as (a & Ha & Hap).
    apply list_elem_of_In in Ha. apply (find_none _ _ E) in Ha.
    assert (Qeq_bool a p.1 = true) by by apply Qeq_bool_iff. congruence.
Qed.

Lemma filter_fmap {A B} (f : A → B) (P : B → Prop) `{!∀ y, Decision (P y)}
    (l : list A) :
  filter P (f <$> l) = f <$> filter (λ x, P (f x)) l.
Proof.
  induction l as [|x l IH]; [done|]. rewrite fmap_cons.
  destruct (decide (P (f x))).
  - rewrite !filter_cons_True by done. by rewrite fmap_cons, IH.
  - by rewrite !filter_cons_False by done.
Qed.

(** *** The stroke-by-age table *)

Lemma stroke_by_age_loc (view : list Patient) (r : Patient) (c : Z) :
  r ∈ view →
  loc (stroke_by_age view) (Age r) c =
    if decide (c ∈ Stroke <$> view)
    then Some (Z.of_nat (length
           (filter (λ x, (Age x == Age r)%Q ∧ Stroke x = c) view)))
    else None.
Proof.
  intros Hr. unfold stroke_by_age.
  rewrite (loc_unstack_groupby2_size _ (Age r, Stroke r) c)
    by (apply list_elem_of_fmap; by exists r).
  rewrite <- list_fmap_compose. cbn [fst snd].
  rewrite (filter_fmap (λ r, (Age r, Stroke r))), length_fmap. done.
Qed.

Lemma stroke_outcomes_partition (view : list Patient) (a : Q) :
  Forall (λ r, flag (Stroke r)) view →
  Z.of_nat (length (filter (λ x, (Age x == a)%Q ∧ Stroke x = 0) view))
  + Z.of_nat (length (filter (λ x, (Age x == a)%Q ∧ Stroke x = 1) view))
  = Z.of_nat (length (filter (λ x, (Age x == a)%Q) view)).
Proof.
  induction 1 as [|r view Hr _ IH]; [done|].
  destruct (decide (Age r == a)%Q) as [Ha|Ha].
  - rewrite (filter_cons_True (λ x, (Age x == a)%Q)) by done.
    destruct Hr as [H0|H1].
    + rewrite filter_cons_True by done.
      rewrite filter_cons_False by (intros [_ ?]; congruence).
      simpl length. lia.
    + rewrite filter_cons_False by (intros [_ ?]; congruence).
      rewrite filter_cons_True by done.
      simpl length. lia.
  - rewrite !filter_cons_False by tauto. done.
Qed.

Lemma group_without_outcome (view : list Patient) (a : Q) (c : Z) :
  c ∉ Stroke <$> view →
  length (filter (λ x, (Age x == a)%Q ∧ Stroke x = c) view) = 0%nat.
Proof.
  intros Hc.
  destruct (filter _ view) as [|x l] eqn:E; [done|].
  assert (x ∈ filter (λ x, (Age x == a)%Q ∧ Stroke x = c) view) as Hx
    by (rewrite E; left).
  apply list_elem_of_filter in Hx as [[_ <-] Hx].
  destruct Hc. apply list_elem_of_fmap. by exists x.
Qed.

(** *** When the bar chart accepts its table *)

Lemma stroke_by_age_columns view c :
  c ∈ columns (stroke_by_age view) ↔ c ∈ Stroke <$> view.
Proof.
  unfold stroke_by_age. rewrite elem_of_unstack_columns.
  by rewrite <- list_fmap_compose.
Qed.

Lemma px_bar_accepts view :
  view = [] ∨ both_outcomes view → px_bar (stroke_by_age view) [0; 1] = Ok ().
Proof.
  intros [->|[H0 H1]]; [done|]. unfold px_bar.
  rewrite decide_True; [done|].
  repeat constructor; by apply stroke_by_age_columns.
Qed.

Lemma charts_accepted `{FloatArith} view :
  view = [] ∨ both_outcomes view → (charts view).2 = Ok ().
Proof. intros Hv. by rewrite charts_run, px_bar_accepts. Qed.

Lemma script_completes `{FloatArith} csv u :
  csv ≠ [] →
  Exists (λ r, is_Some (smoking_status_map !! csv_smoking_status r)) csv →
  run_view csv u = [] ∨ both_outcomes (run_view csv u) →
  ∃ es g, script csv u = (es, Ok g).
Proof.
  intros Hne Hsmk Hview.
  destruct (script_run_view csv u Hne) as (es & ctl & _ & _ & ->).
  destruct (getitem0_mode (Smoking_Status <$> load_data csv)) as (m & Hm & _);
    [by apply smoking_labels_present|].
  rewrite charts_accepted by done.
  rewrite insights_run, Hm. cbn [snd]. by eexists _, _.
Qed.

Lemma no_smoking_label_empty_view csv rng gs ss :
  Forall (λ r, smoking_status_map !! csv_smoking_status r = None) csv →
  filtered_df (load_data csv) rng gs ss = [].
Proof.
  intros Hnone. destruct rng as [a b]. rewrite filtered_df_filter.
  unfold load_data. induction Hnone as [|r csv Hr _ IH]; [done|].
  rewrite fmap_cons, filter_cons_False; [done|].
  intros (_ & _ & _ & Hs). simpl in Hs. by rewrite Hr in Hs.
Qed.

Lemma script_raises_without_smoking_labels `{FloatArith} csv u :
  csv ≠ [] →
  Forall (λ r, smoking_status_map !! csv_smoking_status r = None) csv →
  (script csv u).2 = Raise KeyError.
Proof.
  intros Hne Hnone.
  destruct (script_run_view csv u Hne) as (es & ctl & _ & Hview & ->).
  unfold filter_stmt in Hview. cbn [g_filtered_df] in Hview.
  rewrite no_smoking_label_empty_view in Hview by done. rewrite Hview.
  rewrite charts_accepted by by left.
  rewrite insights_run, mode_all_missing by by apply smoking_labels_absent.
  done.
Qed.

(** *** What a run emits, whatever the user selected *)

Lemma script_metrics `{FloatArith} csv u :
  csv ≠ [] →
  metrics (script csv u).1 =
    [ ("Total Patients", Int (Z.of_nat (length csv)));
      ("Average Glucose Level", Float (mean (csv_avg_glucose_level <$> csv)));
      ("Average BMI", Float (mean (dropna (csv_bmi <$> csv))));
      ("Stroke Cases", Int (sum_int64 (csv_stroke <$> csv))) ].
Proof.
  intros Hne.
  destruct (series_min_is_Some (Age <$> load_data csv)) as [mn Hmn];
    [by apply load_data_nonempty|].
  destruct (series_max_is_Some (Age <$> load_data csv)) as [mx Hmx];
    [by apply load_data_nonempty|].
  rewrite (script_run _ _ _ _ (sidebar_run _ u _ _ Hmn Hmx)).
  rewrite charts_run, kpi_cards_run, insights_run.
  destruct (load_data_columns csv) as (Hlen & Hglu & Hbmi & _ & _ & Hstr).
  unfold mean_skipna. rewrite Hlen, Hglu, Hbmi, Hstr.
  destruct (px_bar _ _) as [[]|e]; [|reflexivity].
  destruct (getitem0 _); reflexivity.
Qed.

Lemma script_insights `{FloatArith} csv u m :
  csv ≠ [] →
  run_view csv u = [] ∨ both_outcomes (run_view csv u) →
  getitem0 (mode (Smoking_Status <$> load_data csv)) = Ok m →
  insight_blocks (script csv u).1 =
    [ Insights (mean (csv_avg_glucose_level <$> csv))
        (mean (dropna (csv_bmi <$> csv)))
        m
        (scale 100 (mean_int (csv_hypertension <$> csv)))
        (scale 100 (mean_int (csv_heart_disease <$> csv)))
        (scale 100 (mean_int (csv_stroke <$> csv))) ].
Proof.
  intros Hne Hview Hm.
  destruct (series_min_is_Some (Age <$> load_data csv)) as [mn Hmn];
    [by apply load_data_nonempty|].
  destruct (series_max_is_Some (Age <$> load_data csv)) as [mx Hmx];
    [by apply load_data_nonempty|].
  pose proof (sidebar_run _ u _ _ Hmn Hmx) as Hs.
  rewrite (run_view_sidebar _ _ _ _ Hs) in Hview.
  rewrite (script_run _ _ _ _ Hs).
  rewrite charts_run, (px_bar_accepts _ Hview), kpi_cards_run, insights_run, Hm.
  destruct (load_data_columns csv) as (Hlen & Hglu & Hbmi & Hhyp & Hhd & Hstr).
  unfold mean_skipna. rewrite Hglu, Hbmi, Hhyp, Hhd, Hstr.
  reflexivity.
Qed.

(** * The claims *)

(** The runs on the sample files compute without rounding. *)
#[local] Existing Instance exact_arith.

(** ** Filtering *)

(** C1. For every table and every selection (an age range [a, b], a list
    of gender labels, a list of smoking-status labels) the filtered view
    is exactly the rows, in order and with their multiplicity, whose age
    lies in [a, b] with both ends included, whose gender is a selected
    label and whose smoking status is a selected label. *)
Theorem filtered_df_exact (df : list Patient) (a b : Z) (gs ss : list string) :
  filtered_df df (a, b) gs ss =
  filter (λ r, (inject_Z a <= Age r)%Q ∧ (Age r <= inject_Z b)%Q
               ∧ label_in (Gender r) gs ∧ label_in (Smoking_Status r) ss) df.
Proof.
  unfold filtered_df, ge, le, isin. simpl.
  rewrite <- !list_fmap_compose, !mask_and_fmap.
  apply getitem_mask_fmap. intros r. simpl.
  rewrite !andb_true_iff, !Qle_bool_iff, !bool_decide_eq_true. tauto.
Qed.

(** C10. Filtering does not change the loaded table, the view is a
    subsequence of it, and a selection with a narrower age range and fewer
    labels gives a subsequence of the wider selection's view. *)
Theorem filtering_monotone (df : list Patient) (ctl ctl' : Controls) :
  (age_range ctl).1 ≤ (age_range ctl').1 →
  (age_range ctl').2 ≤ (age_range ctl).2 →
  selected_genders ctl' ⊆ selected_genders ctl →
  selected_smoking ctl' ⊆ selected_smoking ctl →
  g_df (filter_stmt df ctl) = df
  ∧ g_filtered_df (filter_stmt df ctl) `sublist_of` df
  ∧ g_filtered_df (filter_stmt df ctl') `sublist_of` g_filtered_df (filter_stmt df ctl).
Proof.
  intros Hlo Hhi Hg Hs. unfold filter_stmt; simpl.
  destruct (age_range ctl) as [a b], (age_range ctl') as [a' b']; simpl in *.
  rewrite !filtered_df_filter. split_and!; [done|apply sublist_filter|].
  apply filter_sublist_impl. intros r (Ha & Hb & Hgr & Hsr).
  rewrite Zle_Qle in Hlo, Hhi. split_and!.
  - by etrans.
  - by etrans.
  - by eapply label_in_mono.
  - by eapply label_in_mono.
Qed.

Lemma filtering_monotone_witness :
  (age_range Samples.wide).1 ≤ (age_range Samples.narrow).1
  ∧ (age_range Samples.narrow).2 ≤ (age_range Samples.wide).2
  ∧ selected_genders Samples.narrow ⊆ selected_genders Samples.wide
  ∧ selected_smoking Samples.narrow ⊆ selected_smoking Samples.wide
  ∧ g_df (filter_stmt (load_data Samples.whole_years) Samples.wide)
    = load_data Samples.whole_years
  ∧ g_filtered_df (filter_stmt (load_data Samples.whole_years) Samples.wide)
    `sublist_of` load_data Samples.whole_years
  ∧ g_filtered_df (filter_stmt (load_data Samples.whole_years) Samples.narrow)
    `sublist_of` g_filtered_df (filter_stmt (load_data Samples.whole_years) Samples.wide).
Proof.
  assert (selected_genders Samples.narrow ⊆ selected_genders Samples.wide) as Hg.
  { intros x ->%list_elem_of_singleton. left. }
  assert (selected_smoking Samples.narrow ⊆ selected_smoking Samples.wide) as Hs.
  { intros x ->%list_elem_of_singleton. left. }
  split_and!; [simpl; lia|simpl; lia|done|done|..];
    apply (filtering_monotone (load_data Samples.whole_years)
             Samples.wide Samples.narrow); simpl; (lia || done).
Defined.

(** ** The age slider and the default selection *)

(** C9. For a non-empty file the bounds of the age slider, and its default
    value, are the integer parts (rounding toward zero) of the least and
    of the greatest age; whatever range inside the slider the user
    selects, in particular the default one, a patient whose age exceeds
    the upper bound of the slider is not in the filtered view. *)
Theorem age_slider_truncates (csv : list CsvRow) (u : User) :
  csv ≠ [] →
  within_slider (load_data csv) u →
  let df := load_data csv in
  ∃ mn mx lo hi es ctl,
    is_minimum mn (Age <$> df) ∧ is_maximum mx (Age <$> df)
    ∧ integer_part lo mn ∧ integer_part hi mx
    ∧ sidebar df u = (es, Ok ctl)
    ∧ Slider "Select Age Range:" lo hi (lo, hi) ∈ es
    ∧ ∀ r, r ∈ df → (inject_Z hi < Age r)%Q →
        r ∉ g_filtered_df (filter_stmt df ctl).
Proof.
  intros Hne Hsel. cbv zeta. set (df := load_data csv) in *.
  destruct (series_min_is_Some (Age <$> df)) as [mn Hmn]; [by apply load_data_nonempty|].
  destruct (series_max_is_Some (Age <$> df)) as [mx Hmx]; [by apply load_data_nonempty|].
  exists mn, mx, (truncate mn), (truncate mx). eexists _, _. split_and!.
  - by apply series_min_spec.
  - by apply series_max_spec.
  - exact (truncate_toward_zero mn).
  - exact (truncate_toward_zero mx).
  - by apply sidebar_run.
  - apply elem_of_cons; right. apply elem_of_cons; by left.
  - intros r Hr Hlt. unfold filter_stmt; simpl.
    destruct (default _ (age_choice u)) as [a b] eqn:Hab.
    rewrite filtered_df_filter, list_elem_of_filter.
    intros ((_ & Hb & _) & _).
    assert (b ≤ truncate mx) as Hle.
    { destruct (age_choice u) as [[a' b']|] eqn:Hu; simpl in Hab.
      - injection Hab as -> ->.
        edestruct (Hsel a b) as (_ & _ & ?); [done|by rewrite Hmn|by rewrite Hmx|done].
      - by injection Hab as <- <-. }
    rewrite Zle_Qle in Hle. lra.
Qed.

Lemma untouched_within_slider df : within_slider df untouched.
Proof. intros a b lo hi [=]. Qed.

(** On [Samples.half_year], ages 45 and 45.5, the slider runs from 45 to
    45 and the patient aged 45.5 is not in the default view. *)
Lemma age_slider_truncates_witness :
  Samples.half_year ≠ []
  ∧ within_slider (load_data Samples.half_year) untouched
  ∧ ∃ es ctl,
      sidebar (load_data Samples.half_year) untouched = (es, Ok ctl)
      ∧ Slider "Select Age Range:" 45 45 (45, 45) ∈ es
      ∧ relabel (Samples.row 2 0 (91 # 2) 0 0 2 0)
        ∉ g_filtered_df (filter_stmt (load_data Samples.half_year) ctl).
Proof.
  split_and!; [done|apply untouched_within_slider|].
  destruct (age_slider_truncates Samples.half_year untouched)
    as (mn & mx & lo & hi & es & ctl & [Hmn Hmn_le] & [Hmx Hmx_le]
        & [Hlo _] & [Hhi _] & Hs & Hin & Hout);
    [done|apply untouched_within_slider|].
  change (Age <$> load_data Samples.half_year) with [45 # 1; 91 # 2]%Q in *.
  assert (mn = 45 # 1)%Q as ->.
  { apply elem_of_cons in Hmn as [->|Hmn]; [done|].
    apply list_elem_of_singleton in Hmn as ->.
    apply Forall_cons in Hmn_le as [Hle _]. unfold Qle in Hle. simpl in Hle. lia. }
  assert (mx = 91 # 2)%Q as ->.
  { apply elem_of_cons in Hmx as [->|Hmx]; [|by apply list_elem_of_singleton in Hmx].
    apply Forall_cons in Hmx_le as [_ [Hle _]%Forall_cons].
    unfold Qle in Hle. simpl in Hle. lia. }
  assert (lo = 45) as ->.
  { destruct Hlo as [Hlo1 Hlo2]; [done|].
    unfold Qle, Qlt in *. simpl in *. lia. }
  assert (hi = 45) as ->.
  { destruct Hhi as [Hhi1 Hhi2]; [done|].
    unfold Qle, Qlt in *. simpl in *. lia. }
  exists es, ctl. split_and!; [done..|].
  apply Hout; [|done]. right. left.
Defined.

(** C3 fails on [Samples.half_year], which has a patient aged 45.5: the
    slider stops at 45 and the default selection keeps one row out of
    two. *)
Lemma default_filter_drops_fractional_maximum :
  ∃ es ctl,
    sidebar (load_data Samples.half_year) untouched = (es, Ok ctl)
    ∧ age_range ctl = (45, 45)
    ∧ length (g_filtered_df (filter_stmt (load_data Samples.half_year) ctl)) = 1%nat
    ∧ length (load_data Samples.half_year) = 2%nat.
Proof. eexists _, _. split_and!; vm_compute; reflexivity. Qed.

(** In [Samples.unknown_gender] the second row has no gender label: no
    option of the gender control selects it, and the default selection
    keeps one row out of two. *)
Example default_filter_drops_unknown_gender :
  ∃ es ctl,
    sidebar (load_data Samples.unknown_gender) untouched = (es, Ok ctl)
    ∧ selected_genders ctl = ["Male"]
    ∧ length (g_filtered_df (filter_stmt (load_data Samples.unknown_gender) ctl)) = 1%nat
    ∧ length (load_data Samples.unknown_gender) = 2%nat.
Proof. eexists _, _. split_and!; vm_compute; reflexivity. Qed.

(** C3, amended. For a non-empty file in which every gender code and every
    smoking-status code is in its table, no age is negative and the
    greatest age is a whole number, the default selection (the full
    slider range, all offered gender and smoking-status labels) yields
    the whole table, hence as many rows as the file. *)
Theorem default_filter_keeps_all (csv : list CsvRow) (k : Z) :
  csv ≠ [] →
  Forall (λ r, is_Some (gender_map !! csv_gender r)
               ∧ is_Some (smoking_status_map !! csv_smoking_status r)) csv →
  Forall (λ r, 0 <= csv_age r ∧ csv_age r <= inject_Z k)%Q csv →
  Exists (λ r, csv_age r == inject_Z k)%Q csv →
  let df := load_data csv in
  ∃ es ctl,
    sidebar df untouched = (es, Ok ctl)
    ∧ g_filtered_df (filter_stmt df ctl) = df
    ∧ length (g_filtered_df (filter_stmt df ctl)) = length csv.
Proof.
  intros Hne Hlab Hage Hk. cbv zeta. set (df := load_data csv) in *.
  destruct (series_min_is_Some (Age <$> df)) as [mn Hmn]; [by apply load_data_nonempty|].
  destruct (series_max_is_Some (Age <$> df)) as [mx Hmx]; [by apply load_data_nonempty|].
  pose proof (series_min_spec _ _ Hmn) as [Hmn_in Hmn_le].
  pose proof (series_max_spec _ _ Hmx) as [Hmx_in Hmx_le].
  pointwise Hlab. pointwise Hage. pointwise Hmn_le. pointwise Hmx_le.
  assert (∀ x, x ∈ Age <$> df → ∃ r0, r0 ∈ csv ∧ x = csv_age r0) as Hages.
  { intros x (r & -> & Hr)%list_elem_of_fmap.
    apply elem_of_load_data in Hr as (r0 & Hr0 & ->). by exists r0. }
  assert (0 <= mn)%Q as Hmn0.
  { destruct (Hages mn Hmn_in) as (r0 & Hr0 & ->). by apply Hage. }
  assert (mx == inject_Z k)%Q as Hmxk.
  { apply Qle_antisym.
    - destruct (Hages mx Hmx_in) as (r0 & Hr0 & ->). by apply Hage.
    - apply Exists_exists in Hk as (r0 & Hr0 & Heq). rewrite <- Heq.
      apply Hmx_le. apply list_elem_of_fmap. exists (relabel r0).
      split; [done|]. apply elem_of_load_data. by exists r0. }
  assert (g_filtered_df (filter_stmt df
            {| age_range := (truncate mn, truncate mx);
               selected_genders := unique (dropna (Gender <$> df));
               selected_smoking := unique (dropna (Smoking_Status <$> df)) |}) = df) as Hall.
  { unfold filter_stmt; simpl. rewrite filtered_df_filter. apply filter_all.
    apply Forall_forall. intros r Hr.
    pose proof Hr as (r0 & Hr0 & ->)%elem_of_load_data.
    destruct (Hlab r0 Hr0) as [Hg Hs]. destruct (Hage r0 Hr0) as [H0 Hle].
    split_and!.
    - etrans; [by apply truncate_le|]. apply Hmn_le.
      apply list_elem_of_fmap. by exists (relabel r0).
    - by rewrite (truncate_whole mx k).
    - apply label_in_options; [|done]. apply list_elem_of_fmap. by exists (relabel r0).
    - apply label_in_options; [|done]. apply list_elem_of_fmap. by exists (relabel r0). }
  eexists _, _. split_and!.
  - by apply sidebar_run.
  - exact Hall.
  - simpl in Hall |- *. rewrite Hall. unfold df, load_data. by rewrite length_fmap.
Qed.

Lemma default_filter_keeps_all_witness :
  Samples.whole_years ≠ []
  ∧ Forall (λ r, is_Some (gender_map !! csv_gender r)
                 ∧ is_Some (smoking_status_map !! csv_smoking_status r))
      Samples.whole_years
  ∧ Forall (λ r, 0 <= csv_age r ∧ csv_age r <= inject_Z 52)%Q Samples.whole_years
  ∧ Exists (λ r, csv_age r == inject_Z 52)%Q Samples.whole_years
  ∧ ∃ es ctl,
      sidebar (load_data Samples.whole_years) untouched = (es, Ok ctl)
      ∧ g_filtered_df (filter_stmt (load_data Samples.whole_years) ctl)
        = load_data Samples.whole_years
      ∧ length (g_filtered_df (filter_stmt (load_data Samples.whole_years) ctl))
        = length Samples.whole_years.
Proof.
  assert (Forall (λ r, is_Some (gender_map !! csv_gender r)
                       ∧ is_Some (smoking_status_map !! csv_smoking_status r))
            Samples.whole_years) as Hlab.
  { repeat constructor; by eexists. }
  assert (Forall (λ r, 0 <= csv_age r ∧ csv_age r <= inject_Z 52)%Q
            Samples.whole_years) as Hage.
  { repeat constructor; by vm_compute. }
  assert (Exists (λ r, csv_age r == inject_Z 52)%Q Samples.whole_years) as Hmax.
  { apply Exists_cons_tl, Exists_cons_hd. reflexivity. }
  split_and!; [done..|].
  apply (default_filter_keeps_all Samples.whole_years 52); done.
Defined.

(** ** KPI cards and insights *)

(** C6. For a non-empty file the four KPI cards hold the number of rows,
    the mean glucose level, the mean BMI over the rows that have one and
    the sum of the stroke column, all taken over the whole file; they are
    the same for every selection of the user. *)
Theorem kpi_cards_unfiltered `{FloatArith} (csv : list CsvRow) (u u' : User) :
  csv ≠ [] →
  metrics (script csv u).1 =
    [ ("Total Patients", Int (Z.of_nat (length csv)));
      ("Average Glucose Level", Float (mean (csv_avg_glucose_level <$> csv)));
      ("Average BMI", Float (mean (dropna (csv_bmi <$> csv))));
      ("Stroke Cases", Int (sum_int64 (csv_stroke <$> csv))) ]
  ∧ metrics (script csv u').1 = metrics (script csv u).1.
Proof.
  intros Hne. split.
  - by apply script_metrics.
  - by rewrite !script_metrics.
Qed.

Lemma kpi_cards_unfiltered_witness :
  Samples.whole_years ≠ []
  ∧ metrics (script Samples.whole_years untouched).1 =
      [ ("Total Patients", Int 2);
        ("Average Glucose Level", Float (Some (210 # 2)));
        ("Average BMI", Float (Some (56 # 2)));
        ("Stroke Cases", Int 1) ]
  ∧ metrics (script Samples.whole_years
               {| age_choice := Some (45, 50);
                  gender_choice := Some ["Male"];
                  smoking_choice := Some ["Smokes"] |}).1
    = metrics (script Samples.whole_years untouched).1.
Proof.
  assert (Samples.whole_years ≠ []) as Hne by done.
  split; [exact Hne|].
  exact (kpi_cards_unfiltered Samples.whole_years untouched
           {| age_choice := Some (45, 50);
              gender_choice := Some ["Male"];
              smoking_choice := Some ["Smokes"] |} Hne).
Defined.





(** ** Relabelling *)

(** C8 fails on [Samples.unknown_smoking], one row whose smoking code 9 is
    not in the table: the label is missing and the run stops with a
    KeyError when the insight block asks for the most frequent label.  It
    fails on [Samples.unknown_gender] as well, where the gender code 7 of
    the second row is not in the table: the row is in no selection, the
    default view is left with one row and one stroke outcome, and the run
    stops with a ValueError at the bar chart. *)
Lemma unknown_codes_stop_the_run :
  (Smoking_Status <$> load_data Samples.unknown_smoking = [None]
   ∧ (script Samples.unknown_smoking untouched).2 = Raise KeyError)
  ∧ (Gender <$> load_data Samples.unknown_gender = [Some "Male"; None]
     ∧ Stroke <$> run_view Samples.unknown_gender untouched = [1]
     ∧ (script Samples.unknown_gender untouched).2 = Raise ValueError).
Proof. split_and!; vm_compute; reflexivity. Qed.

(** C8, amended. Loading sends each of the four coded columns once through
    its table; a code outside the table gives a missing label, and loading
    raises nothing.  Missing labels do not stop the run of a non-empty
    file, provided at least one smoking-status code is in the table and
    the bar chart accepts the filtered view: the view is empty or holds
    both stroke outcomes. *)
Theorem relabelling_total `{FloatArith} (csv : list CsvRow) (u : User) :
  csv ≠ [] →
  Exists (λ r, is_Some (smoking_status_map !! csv_smoking_status r)) csv →
  run_view csv u = [] ∨ both_outcomes (run_view csv u) →
  (Gender <$> load_data csv = series_map gender_map (csv_gender <$> csv)
   ∧ Work_Type <$> load_data csv = series_map work_type_map (csv_work_type <$> csv)
   ∧ Residence_Type <$> load_data csv
     = series_map residence_type_map (csv_residence_type <$> csv)
   ∧ Smoking_Status <$> load_data csv
     = series_map smoking_status_map (csv_smoking_status <$> csv))
  ∧ (∀ k, (k < 0 ∨ 1 < k → gender_map !! k = None)
          ∧ (k < 0 ∨ 4 < k → work_type_map !! k = None)
          ∧ (k < 0 ∨ 1 < k → residence_type_map !! k = None)
          ∧ (k < 0 ∨ 3 < k → smoking_status_map !! k = None))
  ∧ ∃ es g, script csv u = (es, Ok g).
Proof.
  intros Hne Hsmk Hview.
  split_and!; [apply load_data_labels..|apply tables_domain|].
  by apply script_completes.
Qed.

(** On [Samples.odd_codes] the third row has the gender code 7 and the
    smoking code 9: both labels are missing, and the run ends normally. *)
Lemma relabelling_total_witness :
  Samples.odd_codes ≠ []
  ∧ Exists (λ r, is_Some (smoking_status_map !! csv_smoking_status r)) Samples.odd_codes
  ∧ (run_view Samples.odd_codes untouched = []
     ∨ both_outcomes (run_view Samples.odd_codes untouched))
  ∧ Gender <$> load_data Samples.odd_codes = [Some "Male"; Some "Female"; None]
  ∧ Smoking_Status <$> load_data Samples.odd_codes
    = [Some "Smokes"; Some "Never Smoked"; None]
  ∧ ∃ es g, script Samples.odd_codes untouched = (es, Ok g).
Proof.
  assert (Exists (λ r, is_Some (smoking_status_map !! csv_smoking_status r))
            Samples.odd_codes) as Hsmk.
  { apply Exists_cons_hd. by eexists. }
  assert (both_outcomes (run_view Samples.odd_codes untouched)) as Hview.
  { split; vm_compute; [right; left|left]. }
  destruct (relabelling_total Samples.odd_codes untouched)
    as ((Hgender & _ & _ & Hsmoking) & _ & Hrun);
    [done|exact Hsmk|by right|].
  split_and!; [done|exact Hsmk|by right|exact Hgender|exact Hsmoking|exact Hrun].
Defined.

(** ** Chart data *)

(** C4. On a table whose hypertension and heart-disease columns hold 0/1
    flags (the data model) and which has fewer than 2^63 rows, so that
    int64 arithmetic does not wrap, for every filtered view the dict of the second pie chart holds
    the sum of the hypertension flags, the sum of the heart-disease flags
    and, under Neither, the number of rows of the view minus both sums;
    the three values add up to the number of rows of the view. *)
Theorem neither_is_remainder (df : list Patient) (rng : Z * Z) (gs ss : list string) :
  condition_flags df →
  Z.of_nat (length df) < 2 ^ 63 →
  let view := filtered_df df rng gs ss in
  let n := Z.of_nat (length view) in
  let h := sumZ (Hypertension <$> view) in
  let d := sumZ (Heart_Disease <$> view) in
  counts view = [ ("Hypertension", h); ("Heart Disease", d); ("Neither", n - h - d) ]
  ∧ sumZ (snd <$> counts view) = n.
Proof.
  intros Hflags Hlen. cbv zeta. set (view := filtered_df df rng gs ss).
  pose proof (filtered_df_sublist df rng gs ss) as Hsub. fold view in Hsub.
  apply (Forall_sublist_of _ _ _ Hsub) in Hflags.
  apply sublist_length in Hsub.
  assert (Forall flag (Hypertension <$> view)) as Hh.
  { rewrite Forall_fmap. eapply Forall_impl; [exact Hflags|]. simpl. tauto. }
  assert (Forall flag (Heart_Disease <$> view)) as Hd.
  { rewrite Forall_fmap. eapply Forall_impl; [exact Hflags|]. simpl. tauto. }
  pose proof (sumZ_flags _ Hh) as Hhb. pose proof (sumZ_flags _ Hd) as Hdb.
  rewrite length_fmap in Hhb, Hdb.
  assert (counts view =
    [ ("Hypertension", sumZ (Hypertension <$> view));
      ("Heart Disease", sumZ (Heart_Disease <$> view));
      ("Neither", Z.of_nat (length view) - sumZ (Hypertension <$> view)
                  - sumZ (Heart_Disease <$> view)) ]) as ->.
  { unfold counts.
    rewrite !sum_int64_flags by (rewrite ?length_fmap; (done || lia)).
    rewrite (wrap64_small (_ - sumZ (Hypertension <$> view))) by lia.
    rewrite wrap64_small by lia. done. }
  split; [done|]. simpl. lia.
Qed.

Lemma whole_years_flags :
  condition_flags (load_data Samples.whole_years)
  ∧ stroke_flags (load_data Samples.whole_years).
Proof. split; repeat constructor; by vm_compute; auto. Qed.

(** The view holds one patient, who has both conditions: Neither is -1. *)
Lemma neither_is_remainder_witness :
  condition_flags (load_data Samples.whole_years)
  ∧ Z.of_nat (length (load_data Samples.whole_years)) < 2 ^ 63
  ∧ counts (filtered_df (load_data Samples.whole_years) (40, 60) ["Male"] ["Smokes"])
    = [ ("Hypertension", 1); ("Heart Disease", 1); ("Neither", -1) ]
  ∧ sumZ (snd <$> counts (filtered_df (load_data Samples.whole_years)
                             (40, 60) ["Male"] ["Smokes"])) = 1.
Proof.
  split_and!; [apply whole_years_flags|by vm_compute|..];
    apply (neither_is_remainder (load_data Samples.whole_years) (40, 60)
             ["Male"] ["Smokes"]);
    (apply whole_years_flags || by vm_compute).
Defined.

(** C5. On a table whose stroke column holds 0/1 flags (the data model),
    for every filtered view and
    every age of a row of the view, the cells of the stroke-by-age table
    for the outcomes 0 and 1 at that age add up to the number of rows of
    the view with that age, an outcome without a cell counting for zero;
    each cell holds the number of rows with that age and outcome, and
    every column of the table has a cell at that age (zero when no row
    has the outcome at that age). *)
Theorem stroke_by_age_row_total
    (df : list Patient) (rng : Z * Z) (gs ss : list string) (r : Patient) :
  stroke_flags df →
  r ∈ filtered_df df rng gs ss →
  let view := filtered_df df rng gs ss in
  let t := stroke_by_age view in
  default 0 (loc t (Age r) 0) + default 0 (loc t (Age r) 1)
    = Z.of_nat (length (filter (λ x, Age x == Age r)%Q view))
  ∧ (∀ c n, loc t (Age r) c = Some n →
       n = Z.of_nat (length (filter (λ x, (Age x == Age r)%Q ∧ Stroke x = c) view)))
  ∧ (∀ c, c ∈ columns t → is_Some (loc t (Age r) c)).
Proof.
  intros Hs Hr. cbv zeta. set (view := filtered_df df rng gs ss) in *.
  apply (Forall_sublist_of _ view) in Hs; [|apply filtered_df_sublist].
  assert (∀ c, default 0 (loc (stroke_by_age view) (Age r) c) =
    Z.of_nat (length (filter (λ x, (Age x == Age r)%Q ∧ Stroke x = c) view)))
    as Hcell.
  { intros c. rewrite stroke_by_age_loc by done.
    destruct (decide (c ∈ Stroke <$> view)); simpl; [done|].
    by rewrite group_without_outcome. }
  split_and!.
  - rewrite !Hcell. by apply stroke_outcomes_partition.
  - intros c n Hn. rewrite <- Hcell, Hn. done.
  - intros c Hc. rewrite stroke_by_age_loc by done.
    rewrite decide_True; [by eexists|].
    unfold stroke_by_age in Hc.
    apply elem_of_unstack_columns in Hc.
    by rewrite <- list_fmap_compose in Hc.
Qed.

Lemma stroke_by_age_row_total_witness :
  stroke_flags (load_data Samples.whole_years)
  ∧ relabel (Samples.row 1 1 (45 # 1) 1 1 3 1)
    ∈ filtered_df (load_data Samples.whole_years) (40, 60)
        ["Male"; "Female"] ["Smokes"; "Never Smoked"]
  ∧ default 0 (loc (stroke_by_age
                      (filtered_df (load_data Samples.whole_years) (40, 60)
                         ["Male"; "Female"] ["Smokes"; "Never Smoked"]))
                 (45 # 1) 0)
    + default 0 (loc (stroke_by_age
                        (filtered_df (load_data Samples.whole_years) (40, 60)
                           ["Male"; "Female"] ["Smokes"; "Never Smoked"]))
                   (45 # 1) 1)
    = 1.
Proof.
  assert (relabel (Samples.row 1 1 (45 # 1) 1 1 3 1)
            ∈ filtered_df (load_data Samples.whole_years) (40, 60)
                ["Male"; "Female"] ["Smokes"; "Never Smoked"]) as Hr.
  { vm_compute. left. }
  split_and!; [apply whole_years_flags|exact Hr|].
  exact (proj1 (stroke_by_age_row_total (load_data Samples.whole_years) (40, 60)
                  ["Male"; "Female"] ["Smokes"; "Never Smoked"]
                  (relabel (Samples.row 1 1 (45 # 1) 1 1 3 1))
                  (proj2 whole_years_flags) Hr)).
Defined.

(** The example of the specification: selecting Male alone keeps one row
    of two, and the gender chart shows Male only. *)
Example same_age_male_only :
  let view :=
    filtered_df (load_data Samples.same_age) (45, 45) ["Male"]
      ["Smokes"; "Never Smoked"] in
  length view = 1%nat ∧ gender_counts view = [("Male", 1%nat)].
Proof. split; vm_compute; reflexivity. Qed.

(** ** The bar chart *)

(** What the five chart calls receive for an empty view: no gender counts,
    a stroke-by-age table without rows and without columns (the bar chart
    names the columns 0 and 1), three zero counts, no glucose means and no
    rows for the box plot. *)
Example charts_empty_view `{FloatArith} :
  charts [] =
    ([ Subheader "Gender Distribution";
       Pie "Gender Distribution" [] [];
       Subheader "Stroke Cases by Age";
       Bar "Stroke Cases by Age" {| index := []; columns := []; cells := [] |} [0; 1];
       Subheader "Hypertension vs Heart Disease";
       Pie "Hypertension vs Heart Disease"
         ["Hypertension"; "Heart Disease"; "Neither"] [0; 0; 0];
       Subheader "Average Glucose Level by Age";
       Line "Average Glucose Level by Age" [];
       Subheader "BMI Distribution by Gender";
       Box "BMI Distribution by Gender" [] ], Ok ()).
Proof. reflexivity. Qed.

(** On [Samples.whole_years] the selection of the men who smoke aged 45 to
    50 leaves one row, which had a stroke: the table has no column 0, the
    bar chart raises, and the run stops after the four cards, the gender
    chart and the heading of the bar chart. *)
Example bar_chart_refuses_one_outcome :
  let run :=
    script Samples.whole_years
      {| age_choice := Some (45, 50);
         gender_choice := Some ["Male"];
         smoking_choice := Some ["Smokes"] |} in
  run.2 = Raise ValueError
  ∧ length (metrics run.1) = 4%nat
  ∧ last run.1 = Some (Subheader "Stroke Cases by Age")
  ∧ insight_blocks run.1 = [].
Proof. split_and!; vm_compute; reflexivity. Qed.

(** The default selection on [Samples.half_year] leaves one row as well,
    and the run stops at the bar chart. *)
Example bar_chart_refuses_default_view :
  Stroke <$> run_view Samples.half_year untouched = [1]
  ∧ (script Samples.half_year untouched).2 = Raise ValueError.
Proof. split; vm_compute; reflexivity. Qed.

(** An empty file stops the run at the slider: [int] of a missing minimum. *)
Example script_empty_file `{FloatArith} (u : User) :
  script [] u = ([SidebarHeader "Filters"], Raise ValueError).
Proof. reflexivity. Qed.

(** * Further properties of the script *)

(** ** The sidebar controls *)

Lemma truncate_mono (x y : Q) : (x <= y)%Q → truncate x ≤ truncate y.
Proof.
  destruct x as [n d], y as [n' d']. unfold truncate, Qle; simpl. intros Hle.
  rewrite <- (Z.quot_mul_cancel_r n (Z.pos d) (Z.pos d')) by lia.
  rewrite <- (Z.quot_mul_cancel_r n' (Z.pos d') (Z.pos d)) by lia.
  rewrite (Z.mul_comm (Z.pos d') (Z.pos d)).
  apply Z.quot_le_mono; lia.
Qed.

Lemma NoDup_unique (s : list string) : NoDup (unique s).
Proof.
  induction s as [|x s IH]; simpl; [constructor|].
  constructor.
  - rewrite list_elem_of_filter. tauto.
  - by apply NoDup_filter.
Qed.

Lemma elem_of_labels (f : Patient → option string) (csv : list CsvRow) (l : string) :
  l ∈ unique (dropna (f <$> load_data csv))
  ↔ ∃ r, r ∈ csv ∧ f (relabel r) = Some l.
Proof.
  rewrite elem_of_unique, elem_of_dropna, list_elem_of_fmap. split.
  - intros (p & Hp & (r & Hr & ->)%elem_of_load_data). by exists r.
  - intros (r & Hr & Hl). exists (relabel r). split; [done|].
    apply elem_of_load_data. by exists r.
Qed.

(** X1. The age slider of a non-empty file has its lower bound at most its
    upper bound, and the range a user who leaves it untouched gets is
    exactly these bounds. *)
Theorem slider_bounds_ordered (csv : list CsvRow) (u : User) :
  csv ≠ [] →
  ∃ lo hi es ctl,
    sidebar (load_data csv) u = (es, Ok ctl)
    ∧ Slider "Select Age Range:" lo hi (lo, hi) ∈ es
    ∧ lo ≤ hi
    ∧ (age_choice u = None → age_range ctl = (lo, hi)).
Proof.
  intros Hne.
  destruct (series_min_is_Some (Age <$> load_data csv)) as [mn Hmn];
    [by apply load_data_nonempty|].
  destruct (series_max_is_Some (Age <$> load_data csv)) as [mx Hmx];
    [by apply load_data_nonempty|].
  destruct (series_min_spec _ _ Hmn) as [Hin _].
  destruct (series_max_spec _ _ Hmx) as [_ Hle]. pointwise Hle.
  eexists (truncate mn), (truncate mx), _, _. split_and!.
  - by apply sidebar_run.
  - apply elem_of_cons; right. apply elem_of_cons; by left.
  - apply truncate_mono. by apply Hle.
  - intros Hu. simpl. by rewrite Hu.
Qed.

Lemma slider_bounds_ordered_witness :
  Samples.half_year ≠ []
  ∧ ∃ lo hi es ctl,
      sidebar (load_data Samples.half_year) untouched = (es, Ok ctl)
      ∧ Slider "Select Age Range:" lo hi (lo, hi) ∈ es
      ∧ lo ≤ hi
      ∧ (age_choice untouched = None → age_range ctl = (lo, hi)).
Proof.
  split; [done|]. apply (slider_bounds_ordered Samples.half_year untouched). done.
Defined.

(** X2. When no age is negative, the slider of a non-empty file starts at
    or below every age and ends less than one year below the greatest:
    every age is at least the lower bound and less than the upper bound
    plus one. *)
Theorem slider_covers_ages (csv : list CsvRow) (u : User) :
  csv ≠ [] →
  Forall (λ r, 0 <= csv_age r)%Q csv →
  ∃ lo hi es ctl,
    sidebar (load_data csv) u = (es, Ok ctl)
    ∧ Slider "Select Age Range:" lo hi (lo, hi) ∈ es
    ∧ Forall (λ r, inject_Z lo <= csv_age r ∧ csv_age r < inject_Z (hi + 1))%Q csv.
Proof.
  intros Hne Hage.
  destruct (series_min_is_Some (Age <$> load_data csv)) as [mn Hmn];
    [by apply load_data_nonempty|].
  destruct (series_max_is_Some (Age <$> load_data csv)) as [mx Hmx];
    [by apply load_data_nonempty|].
  destruct (series_min_spec _ _ Hmn) as [Hmn_in Hmn_le].
  destruct (series_max_spec _ _ Hmx) as [Hmx_in Hmx_le].
  pointwise Hmn_le. pointwise Hmx_le. pointwise Hage.
  assert (∀ x, x ∈ Age <$> load_data csv → (0 <= x)%Q) as Hpos.
  { intros x (p & -> & (r & Hr & ->)%elem_of_load_data)%list_elem_of_fmap.
    by apply Hage. }
  destruct (truncate_toward_zero mn) as [[Hlo _] _]; [by apply Hpos|].
  destruct (truncate_toward_zero mx) as [[_ Hhi] _]; [by apply Hpos|].
  eexists (truncate mn), (truncate mx), _, _. split_and!.
  - by apply sidebar_run.
  - apply elem_of_cons; right. apply elem_of_cons; by left.
  - apply Forall_forall. intros r Hr.
    assert (csv_age r ∈ Age <$> load_data csv) as Hin.
    { apply list_elem_of_fmap. exists (relabel r). split; [done|].
      apply elem_of_load_data. by exists r. }
    split.
    + etrans; [exact Hlo|]. by apply Hmn_le.
    + eapply Qle_lt_trans; [by apply Hmx_le|done].
Qed.

Lemma slider_covers_ages_witness :
  Samples.half_year ≠ []
  ∧ Forall (λ r, 0 <= csv_age r)%Q Samples.half_year
  ∧ ∃ lo hi es ctl,
      sidebar (load_data Samples.half_year) untouched = (es, Ok ctl)
      ∧ Slider "Select Age Range:" lo hi (lo, hi) ∈ es
      ∧ Forall (λ r, inject_Z lo <= csv_age r ∧ csv_age r < inject_Z (hi + 1))%Q
          Samples.half_year.
Proof.
  assert (Forall (λ r, 0 <= csv_age r)%Q Samples.half_year) as Hage.
  { repeat constructor; by vm_compute. }
  split_and!; [done|exact Hage|].
  apply (slider_covers_ages Samples.half_year untouched); [done|exact Hage].
Defined.

(** X3. The options of the two multiselects of a non-empty file, which are
    also their defaults, have no duplicates and are exactly the labels
    that occur in the loaded column; gender options are among Female and
    Male, smoking options among the four smoking labels. *)
Theorem multiselect_options (csv : list CsvRow) (u : User) :
  csv ≠ [] →
  ∃ genders smoking es ctl,
    sidebar (load_data csv) u = (es, Ok ctl)
    ∧ Multiselect "Select Gender:" genders genders ∈ es
    ∧ Multiselect "Select Smoking Status:" smoking smoking ∈ es
    ∧ NoDup genders ∧ NoDup smoking
    ∧ (∀ l, l ∈ genders ↔ ∃ r, r ∈ csv ∧ gender_map !! csv_gender r = Some l)
    ∧ (∀ l, l ∈ smoking
            ↔ ∃ r, r ∈ csv ∧ smoking_status_map !! csv_smoking_status r = Some l)
    ∧ genders ⊆ ["Female"; "Male"]
    ∧ smoking ⊆ ["Unknown"; "Formerly Smoked"; "Never Smoked"; "Smokes"].
Proof.
  intros Hne.
  destruct (series_min_is_Some (Age <$> load_data csv)) as [mn Hmn];
    [by apply load_data_nonempty|].
  destruct (series_max_is_Some (Age <$> load_data csv)) as [mx Hmx];
    [by apply load_data_nonempty|].
  eexists _, _, _, _. split_and!.
  - by apply sidebar_run.
  - do 2 (apply elem_of_cons; right). apply elem_of_cons; by left.
  - do 3 (apply elem_of_cons; right). apply elem_of_cons; by left.
  - apply NoDup_unique.
  - apply NoDup_unique.
  - intros l. apply (elem_of_labels Gender).
  - intros l. apply (elem_of_labels Smoking_Status).
  - intros l (r & _ & Hl)%(elem_of_labels Gender). simpl in Hl.
    unfold gender_map in Hl.
    apply lookup_insert_Some in Hl as [[_ <-]|[_ Hl]]; [set_solver|].
    apply lookup_singleton_Some in Hl as [_ <-]. set_solver.
  - intros l (r & _ & Hl)%(elem_of_labels Smoking_Status). simpl in Hl.
    unfold smoking_status_map in Hl.
    repeat (apply lookup_insert_Some in Hl as [[_ <-]|[_ Hl]]; [set_solver|]).
    apply lookup_singleton_Some in Hl as [_ <-]. set_solver.
Qed.

Lemma multiselect_options_witness :
  Samples.whole_years ≠ []
  ∧ ∃ genders smoking es ctl,
      sidebar (load_data Samples.whole_years) untouched = (es, Ok ctl)
      ∧ Multiselect "Select Gender:" genders genders ∈ es
      ∧ Multiselect "Select Smoking Status:" smoking smoking ∈ es
      ∧ NoDup genders ∧ NoDup smoking
      ∧ (∀ l, l ∈ genders
              ↔ ∃ r, r ∈ Samples.whole_years ∧ gender_map !! csv_gender r = Some l)
      ∧ (∀ l, l ∈ smoking
              ↔ ∃ r, r ∈ Samples.whole_years
                     ∧ smoking_status_map !! csv_smoking_status r = Some l)
      ∧ genders ⊆ ["Female"; "Male"]
      ∧ smoking ⊆ ["Unknown"; "Formerly Smoked"; "Never Smoked"; "Smokes"].
Proof.
  split; [done|]. apply (multiselect_options Samples.whole_years untouched). done.
Defined.

(** ** The filter *)

(** X4. A selection with an inverted age range, with no gender or with no
    smoking status gives an empty view, whatever the table. *)
Theorem degenerate_selection_empty_view
    (df : list Patient) (a b : Z) (gs ss : list string) :
  b < a ∨ gs = [] ∨ ss = [] →
  filtered_df df (a, b) gs ss = [].
Proof.
  intros Hsel. rewrite filtered_df_filter.
  induction df as [|r df IH]; [done|].
  rewrite filter_cons_False; [done|].
  intros (Ha & Hb & Hg & Hs). destruct Hsel as [Hlt|[->| ->]].
  - assert (inject_Z a <= inject_Z b)%Q as Hab by by etrans.
    rewrite <- Zle_Qle in Hab. lia.
  - destruct (Gender r); simpl in Hg; [by apply elem_of_nil in Hg|done].
  - destruct (Smoking_Status r); simpl in Hs; [by apply elem_of_nil in Hs|done].
Qed.

Lemma degenerate_selection_empty_view_witness :
  (40 < 60 ∨ ([] : list string) = [] ∨ ["Smokes"] = [])
  ∧ filtered_df (load_data Samples.whole_years) (60, 40) [] ["Smokes"] = [].
Proof.
  split; [left; lia|].
  apply (degenerate_selection_empty_view (load_data Samples.whole_years) 60 40
           [] ["Smokes"]).
  left. lia.
Defined.

Lemma label_in_intersection (c : option string) (vs vs' : list string) :
  label_in c (list_intersection vs vs') ↔ label_in c vs ∧ label_in c vs'.
Proof.
  destruct c; simpl; [apply list_elem_of_intersection|tauto].
Qed.

Lemma Qle_inject_max (a a' : Z) (x : Q) :
  (inject_Z (Z.max a a') <= x)%Q ↔ (inject_Z a <= x)%Q ∧ (inject_Z a' <= x)%Q.
Proof.
  split.
  - intros H; split; (etrans; [|exact H]); rewrite <- Zle_Qle; lia.
  - intros [H1 H2]. by destruct (Z.max_spec a a') as [[_ ->]|[_ ->]].
Qed.

Lemma Qle_inject_min (b b' : Z) (x : Q) :
  (x <= inject_Z (Z.min b b'))%Q ↔ (x <= inject_Z b)%Q ∧ (x <= inject_Z b')%Q.
Proof.
  split.
  - intros H; split; (etrans; [exact H|]); rewrite <- Zle_Qle; lia.
  - intros [H1 H2]. by destruct (Z.min_spec b b') as [[_ ->]|[_ ->]].
Qed.

(** X5. Filtering a view again is filtering the table once with the
    intersection of the two selections: the larger lower bound, the
    smaller upper bound and the labels common to both.  In particular
    filtering a view with its own selection changes nothing. *)
Theorem filtering_composes
    (df : list Patient) (a b a' b' : Z) (gs ss gs' ss' : list string) :
  filtered_df (filtered_df df (a, b) gs ss) (a', b') gs' ss'
  = filtered_df df (Z.max a a', Z.min b b')
      (list_intersection gs gs') (list_intersection ss ss')
  ∧ filtered_df (filtered_df df (a, b) gs ss) (a, b) gs ss
    = filtered_df df (a, b) gs ss.
Proof.
  rewrite !filtered_df_filter, !list_filter_filter. split.
  - apply list_filter_iff. intros r.
    rewrite !label_in_intersection.
    rewrite Qle_inject_max, Qle_inject_min.
    tauto.
  - apply list_filter_iff. intros r. tauto.
Qed.

(** ** Counting labels *)

Section Counting.
Implicit Types (l x : string) (s u : list string).

Lemma occurrences_cons x l s :
  occurrences l (x :: s) = ((if decide (x = l) then 1 else 0) + occurrences l s)%nat.
Proof.
  unfold occurrences. destruct (decide (x = l)).
  - by rewrite filter_cons_True.
  - by rewrite filter_cons_False.
Qed.

Lemma occurrences_absent l s : l ∉ s → occurrences l s = 0%nat.
Proof.
  intros Hl. destruct (occurrences l s) eqn:E; [done|].
  destruct Hl. apply occurrences_pos. lia.
Qed.

Lemma occurrences_present l s : l ∈ s → (0 < occurrences l s)%nat.
Proof.
  induction 1 as [x s|x y s _ IH]; rewrite occurrences_cons.
  - rewrite decide_True by done. lia.
  - lia.
Qed.

Lemma sum_list_fmap {A} (f : A → nat) (u : list A) :
  sum_list (f <$> u) = sum_list_with f u.
Proof. induction u as [|y u IH]; [done|]. rewrite fmap_cons. simpl. by rewrite IH. Qed.

(** Taking one label out of a duplicate-free list of labels. *)
Lemma sum_list_with_take_out (f : string → nat) x u :
  NoDup u → (x ∉ u → f x = 0%nat) →
  (f x + sum_list_with f (filter (λ y, y ≠ x) u) = sum_list_with f u)%nat.
Proof.
  induction 1 as [|y u Hy Hu IH]; intros Hx.
  - simpl. rewrite Hx; [done|apply not_elem_of_nil].
  - destruct (decide (y = x)) as [->|Hne].
    + rewrite filter_cons_False by tauto.
      rewrite filter_all; [done|].
      apply Forall_forall. intros z Hz ->. done.
    + rewrite filter_cons_True by done. simpl.
      rewrite <- IH; [lia|]. intros Hxu. apply Hx.
      rewrite elem_of_cons. intros [->|?]; done.
Qed.

(** Every cell is counted under exactly one of the distinct labels. *)
Lemma sum_occurrences_unique s :
  sum_list_with (λ l, occurrences l s) (unique s) = length s.
Proof.
  induction s as [|x s IH]; [done|]. simpl.
  rewrite occurrences_cons, decide_True by done.
  assert (sum_list_with (λ l, occurrences l (x :: s)) (filter (λ y, y ≠ x) (unique s))
          = sum_list_with (λ l, occurrences l s) (filter (λ y, y ≠ x) (unique s))) as ->.
  { generalize (unique s). intros u. induction u as [|y u IHu]; [done|].
    destruct (decide (y ≠ x)) as [Hne|Heq].
    - rewrite !filter_cons_True by done. simpl. rewrite IHu, occurrences_cons.
      rewrite decide_False by done. done.
    - rewrite !filter_cons_False by done. done. }
  rewrite <- IH.
  rewrite <- (sum_list_with_take_out (λ l, occurrences l s) x (unique s)).
  - lia.
  - apply NoDup_unique.
  - intros Hx. apply occurrences_absent. by rewrite <- elem_of_unique.
Qed.
End Counting.

Section ValueCounts.
Implicit Types (e : string * nat) (es acc : list (string * nat)).

Lemma insert_desc_Permutation e es : insert_desc e es ≡ₚ e :: es.
Proof.
  induction es as [|e' es IH]; simpl; [done|].
  destruct (e'.2 <? e.2)%nat; [done|]. rewrite IH. apply Permutation_swap.
Qed.

Lemma foldl_insert_desc_Permutation es acc :
  foldl (λ acc e, insert_desc e acc) acc es ≡ₚ es ++ acc.
Proof.
  revert acc. induction es as [|e es IH]; intros acc; simpl; [done|].
  rewrite IH, insert_desc_Permutation. by rewrite Permutation_middle.
Qed.

Lemma insert_desc_sorted e es :
  StronglySorted (λ e1 e2, (e2.2 ≤ e1.2)%nat) es →
  StronglySorted (λ e1 e2, (e2.2 ≤ e1.2)%nat) (insert_desc e es).
Proof.
  induction 1 as [|e' es Hes IH Hall]; simpl.
  - repeat constructor.
  - destruct (e'.2 <? e.2)%nat eqn:E.
    + apply Nat.ltb_lt in E. constructor; [by constructor|].
      constructor; [lia|]. eapply Forall_impl; [exact Hall|]. simpl. lia.
    + apply Nat.ltb_ge in E. constructor; [done|].
      rewrite insert_desc_Permutation. by constructor.
Qed.

Lemma foldl_insert_desc_sorted es acc :
  StronglySorted (λ e1 e2, (e2.2 ≤ e1.2)%nat) acc →
  StronglySorted (λ e1 e2, (e2.2 ≤ e1.2)%nat)
    (foldl (λ acc e, insert_desc e acc) acc es).
Proof.
  revert acc. induction es as [|e es IH]; intros acc Hacc; simpl; [done|].
  by apply IH, insert_desc_sorted.
Qed.

(** [value_counts] of a column: the distinct labels with their counts. *)
Lemma value_counts_Permutation (col : list (option string)) :
  value_counts col
  ≡ₚ (λ l, (l, occurrences l (dropna col))) <$> unique (dropna col).
Proof.
  unfold value_counts. rewrite foldl_insert_desc_Permutation. by rewrite app_nil_r.
Qed.
End ValueCounts.

Lemma dropna_cons {A} (c : option A) (s : list (option A)) :
  dropna (c :: s) = match c with Some x => x :: dropna s | None => dropna s end.
Proof. by destruct c. Qed.

Lemma occurrences_column (f : Patient → option string) (view : list Patient) l :
  occurrences l (dropna (f <$> view)) = length (filter (λ r, f r = Some l) view).
Proof.
  induction view as [|r view IH]; [done|].
  rewrite fmap_cons, dropna_cons.
  destruct (f r) as [x|] eqn:E.
  - rewrite occurrences_cons, IH. destruct (decide (x = l)) as [->|Hne].
    + by rewrite filter_cons_True.
    + rewrite filter_cons_False; [done|]. congruence.
  - rewrite IH. rewrite filter_cons_False; [done|]. congruence.
Qed.

Lemma filtered_df_elem_of df a b gs ss r :
  r ∈ filtered_df df (a, b) gs ss →
  r ∈ df ∧ (inject_Z a <= Age r)%Q ∧ (Age r <= inject_Z b)%Q
  ∧ label_in (Gender r) gs ∧ label_in (Smoking_Status r) ss.
Proof. rewrite filtered_df_filter, list_elem_of_filter. tauto. Qed.

Lemma length_dropna_all {A} (s : list (option A)) :
  Forall is_Some s → length (dropna s) = length s.
Proof.
  induction 1 as [|x s [y ->] _ IH]; [done|].
  rewrite dropna_cons. simpl. by rewrite IH.
Qed.

(** ** The gender chart *)

(** X6. The gender counts of a filtered view list each gender label of the
    view once, most frequent first, with the number of rows of the view
    that carry it; every listed label is a selected one, and the counts
    add up to the number of rows of the view. *)
Theorem gender_counts_of_view
    (df : list Patient) (rng : Z * Z) (gs ss : list string) :
  let view := filtered_df df rng gs ss in
  let vc := gender_counts view in
  NoDup vc.*1
  ∧ StronglySorted (λ e1 e2, (e2.2 ≤ e1.2)%nat) vc
  ∧ (∀ l n, (l, n) ∈ vc
            ↔ (0 < n)%nat ∧ n = length (filter (λ r, Gender r = Some l) view))
  ∧ sum_list vc.*2 = length view
  ∧ vc.*1 ⊆ gs.
Proof.
  cbv zeta. set (view := filtered_df df rng gs ss).
  pose proof (value_counts_Permutation (Gender <$> view)) as Hperm.
  fold (gender_counts view) in Hperm.
  set (vals := dropna (Gender <$> view)) in *.
  assert (∀ l n, (l, n) ∈ gender_counts view
                 ↔ l ∈ vals ∧ n = occurrences l vals) as Helem.
  { intros l n. rewrite Hperm, list_elem_of_fmap. split.
    - intros (l' & [= -> ->] & Hl). rewrite elem_of_unique in Hl. done.
    - intros [Hl ->]. exists l. split; [done|]. by apply elem_of_unique. }
  split_and!.
  - assert ((gender_counts view).*1 ≡ₚ unique vals) as ->.
    { rewrite Hperm, <- list_fmap_compose. by rewrite <- (list_fmap_id (unique vals)) at 2. }
    apply NoDup_unique.
  - apply foldl_insert_desc_sorted. constructor.
  - intros l n. rewrite Helem. unfold vals. rewrite occurrences_column. split.
    + intros [Hl ->]. split; [|done].
      rewrite <- occurrences_column. by apply occurrences_present.
    + intros [Hpos ->]. split; [|done].
      apply occurrences_pos. by rewrite occurrences_column.
  - assert ((gender_counts view).*2
            ≡ₚ (λ l, occurrences l vals) <$> unique vals) as ->.
    { rewrite Hperm, <- list_fmap_compose. done. }
    rewrite sum_list_fmap, sum_occurrences_unique. unfold vals.
    rewrite length_dropna_all, length_fmap; [done|].
    rewrite Forall_fmap. apply Forall_forall. intros r Hr.
    unfold view in Hr. destruct rng as [a b].
    apply filtered_df_elem_of in Hr as (_ & _ & _ & Hg & _). simpl.
    destruct (Gender r); [by eexists|done].
  - intros l (e & -> & He)%list_elem_of_fmap. destruct e as [l n].
    apply Helem in He as [Hl _]. simpl.
    apply elem_of_dropna, list_elem_of_fmap in Hl as (r & Hgen & Hr).
    unfold view in Hr. destruct rng as [a b].
    apply filtered_df_elem_of in Hr as (_ & _ & _ & Hg & _).
    rewrite <- Hgen in Hg. done.
Qed.

(** ** Group keys are strictly increasing *)

Section SortedKeys.
Implicit Types (x y : Q) (s K : list Q).

Lemma insert_key_sorted x K :
  StronglySorted Qlt K → StronglySorted Qlt (insert_key x K).
Proof.
  induction 1 as [|y K HK IH Hall]; simpl.
  - repeat constructor.
  - destruct (x ?= y)%Q eqn:E.
    + by constructor.
    + apply Qlt_alt in E. constructor; [by constructor|].
      constructor; [done|]. eapply Forall_impl; [exact Hall|].
      intros z Hz. simpl in *. by eapply Qlt_trans.
    + apply Qgt_alt in E. constructor; [done|].
      apply Forall_forall. intros z [->|Hz]%elem_of_insert_key; [done|].
      pointwise Hall. by apply Hall.
Qed.

Lemma sorted_keys_sorted s : StronglySorted Qlt (sorted_keys s).
Proof.
  unfold sorted_keys. induction s as [|x s IH]; simpl; [constructor|].
  by apply insert_key_sorted.
Qed.

Lemma insert_key_least x K : StronglySorted Qlt (x :: K) → insert_key x K = x :: K.
Proof.
  intros HK. apply StronglySorted_inv in HK as [_ Hall].
  destruct K as [|y K]; [done|]. cbn [insert_key].
  apply Forall_cons in Hall as [Hxy _].
  assert ((x ?= y)%Q = Lt) as -> by by apply Qlt_alt. done.
Qed.

Lemma insert_key_again x K : insert_key x (x :: K) = x :: K.
Proof.
  cbn [insert_key]. assert ((x ?= x)%Q = Eq) as -> by by apply Qeq_alt. done.
Qed.

(** Keys that come in runs of equal keys, in increasing order, are
    already the sorted keys. *)
Lemma sorted_keys_runs (m : Q → nat) K :
  StronglySorted Qlt K → (∀ a, a ∈ K → (0 < m a)%nat) →
  sorted_keys (a ← K; replicate (m a) a) = K.
Proof.
  unfold sorted_keys. induction K as [|a K IH]; intros HK Hm; [done|].
  rewrite bind_cons, foldr_app, IH.
  - destruct (m a) as [|k] eqn:E.
    { specialize (Hm a ltac:(left)). lia. }
    clear E. induction k as [|k IHk]; simpl in *.
    + by apply insert_key_least.
    + rewrite IHk. apply insert_key_again.
  - by apply StronglySorted_inv in HK as [? _].
  - intros b Hb. apply Hm. by right.
Qed.
End SortedKeys.

Lemma insert_keyZ_sorted (x : Z) (K : list Z) :
  StronglySorted Z.lt K → StronglySorted Z.lt (insert_keyZ x K).
Proof.
  induction 1 as [|y K HK IH Hall]; simpl.
  - repeat constructor.
  - destruct (Z.compare_spec x y) as [->|Hlt|Hgt].
    + by constructor.
    + constructor; [by constructor|].
      constructor; [done|]. eapply Forall_impl; [exact Hall|]. simpl. lia.
    + constructor; [done|].
      apply Forall_forall. intros z [->|Hz]%elem_of_insert_keyZ; [done|].
      pointwise Hall. by apply Hall.
Qed.

Lemma sorted_keysZ_sorted (s : list Z) : StronglySorted Z.lt (sorted_keysZ s).
Proof.
  unfold sorted_keysZ. induction s as [|x s IH]; simpl; [constructor|].
  by apply insert_keyZ_sorted.
Qed.

(** The first-level keys of the group sizes come in runs. *)
Lemma groupby2_size_first_level (keys : list (Q * Z)) :
  (λ e, e.1.1) <$> groupby2_size keys
  = a ← sorted_keys (fst <$> keys);
    replicate (length (sorted_keysZ (snd <$> filter (λ p, p.1 == a)%Q keys))) a.
Proof.
  unfold groupby2_size. generalize (sorted_keys (fst <$> keys)). intros K.
  induction K as [|a K IH]; [done|].
  rewrite !bind_cons, fmap_app, IH. f_equal.
  generalize (sorted_keysZ (snd <$> filter (λ p, p.1 == a)%Q keys)). intros C.
  induction C as [|c C IHC]; [done|].
  rewrite bind_cons, fmap_app, IHC. done.
Qed.

Lemma unstack_groupby2_size_index (fill : Z) (keys : list (Q * Z)) :
  index (unstack fill (groupby2_size keys)) = sorted_keys (fst <$> keys).
Proof.
  simpl. rewrite groupby2_size_first_level.
  apply sorted_keys_runs; [apply sorted_keys_sorted|].
  intros a Ha%elem_of_sorted_keys.
  apply list_elem_of_fmap in Ha as (p & -> & Hp).
  assert (p.2 ∈ sorted_keysZ (snd <$> filter (λ q, q.1 == p.1)%Q keys)) as Hin.
  { apply elem_of_sorted_keysZ, list_elem_of_fmap. exists p. split; [done|].
    apply list_elem_of_filter. split; [reflexivity|done]. }
  destruct (sorted_keysZ _); [by apply elem_of_nil in Hin|simpl; lia].
Qed.

(** ** Counting rows by group *)

Section Partition.
Context {A K : Type}.
Implicit Types (l : list A) (ks : list K).

Lemma sum_list_with_plus (f g : K → nat) ks :
  sum_list_with (λ k, f k + g k)%nat ks
  = (sum_list_with f ks + sum_list_with g ks)%nat.
Proof. induction ks as [|k ks IH]; simpl; [done|]. rewrite IH. lia. Qed.

(** When every element falls under exactly one key, the groups partition
    the list. *)
Lemma length_partition (R : K → A → Prop) `{!∀ k x, Decision (R k x)} ks l :
  Forall (λ x, sum_list_with (λ k, if decide (R k x) then 1 else 0)%nat ks = 1%nat) l →
  sum_list_with (λ k, length (filter (R k) l)) ks = length l.
Proof.
  induction 1 as [|x l Hx _ IH].
  - induction ks as [|k ks IHk]; simpl in *; [done|]. by rewrite IHk.
  - assert (sum_list_with (λ k, length (filter (R k) (x :: l))) ks
            = sum_list_with (λ k, (if decide (R k x) then 1 else 0)
                                  + length (filter (R k) l))%nat ks) as ->.
    { clear. induction ks as [|k ks IHk]; simpl; [done|]. rewrite IHk.
      f_equal. rewrite filter_cons. by destruct (decide (R k x)). }
    rewrite sum_list_with_plus, Hx, IH. done.
Qed.
End Partition.

Lemma one_key_Z (ks : list Z) (x : Z) :
  NoDup ks → x ∈ ks →
  sum_list_with (λ k, if decide (x = k) then 1 else 0)%nat ks = 1%nat.
Proof.
  induction 1 as [|k ks Hk Hks IH]; intros Hx; [by apply elem_of_nil in Hx|].
  simpl. destruct (decide (x = k)) as [->|Hne].
  - assert (sum_list_with (λ k', if decide (k = k') then 1 else 0)%nat ks = 0%nat)
      as ->; [|done].
    clear IH Hks Hx. induction ks as [|k' ks IH]; simpl; [done|].
    rewrite decide_False by (intros ->; apply Hk; left).
    apply IH. intros ?. apply Hk. by right.
  - apply elem_of_cons in Hx as [?|Hx]; [done|]. by rewrite IH.
Qed.

Lemma one_key_Q (ks : list Q) (x : Q) :
  StronglySorted Qlt ks → (∃ k, k ∈ ks ∧ (k == x)%Q) →
  sum_list_with (λ k, if decide (x == k)%Q then 1 else 0)%nat ks = 1%nat.
Proof.
  induction 1 as [|k ks Hks IH Hall]; intros (k0 & Hk0 & Hk0x);
    [by apply elem_of_nil in Hk0|].
  simpl. pointwise Hall. destruct (decide (x == k)%Q) as [Hxk|Hne].
  - assert (sum_list_with (λ k', if decide (x == k')%Q then 1 else 0)%nat ks = 0%nat)
      as ->; [|done].
    clear IH Hks Hk0. induction ks as [|k' ks IH]; simpl; [done|].
    rewrite decide_False.
    + apply IH. intros z Hz. apply Hall. by right.
    + intros Hxk'. specialize (Hall k' ltac:(left)).
      rewrite <- Hxk', Hxk in Hall. by apply Qlt_irrefl in Hall.
  - apply elem_of_cons in Hk0 as [->|Hk0].
    + destruct Hne. by symmetry.
    + rewrite IH; [done|]. by exists k0.
Qed.

Lemma sumZ_of_nat {K} (f : K → nat) (ks : list K) :
  sumZ ((λ k, Z.of_nat (f k)) <$> ks) = Z.of_nat (sum_list_with f ks).
Proof. induction ks as [|k ks IH]; [done|]. rewrite fmap_cons. simpl. rewrite IH. lia. Qed.

Lemma sum_list_with_agree {K} (f g : K → nat) (ks : list K) :
  (∀ k, k ∈ ks → f k = g k) → sum_list_with f ks = sum_list_with g ks.
Proof.
  induction ks as [|k ks IH]; intros Hfg; simpl; [done|].
  rewrite Hfg by left. rewrite IH; [done|]. intros k' ?. apply Hfg. by right.
Qed.

Section TableTotals.
Variable keys : list (Q * Z).

Let t := unstack 0 (groupby2_size keys).

Lemma unstack_cells :
  cells t = (λ a, (λ c, Z.of_nat (length
               (filter (λ p : Q * Z, (p.1 == a)%Q ∧ p.2 = c) keys))) <$> columns t)
            <$> index t.
Proof.
  unfold t. simpl. apply list_fmap_ext. intros _ a _.
  apply list_fmap_ext. intros _ c _. apply lookup_group_groupby2_size.
Qed.

Lemma unstack_columns_sorted : StronglySorted Z.lt (columns t).
Proof. apply sorted_keysZ_sorted. Qed.

Lemma unstack_columns_NoDup : NoDup (columns t).
Proof.
  generalize unstack_columns_sorted. generalize (columns t). intros cs.
  induction 1 as [|c cs _ IH Hall]; constructor; [|done].
  intros Hc. pointwise Hall. specialize (Hall c Hc). lia.
Qed.

(** The cells of the row of a key add up to the rows with that key. *)
Lemma unstack_row_total (a : Q) :
  sumZ ((λ c, Z.of_nat (length
          (filter (λ p : Q * Z, (p.1 == a)%Q ∧ p.2 = c) keys))) <$> columns t)
  = Z.of_nat (length (filter (λ p : Q * Z, (p.1 == a)%Q) keys)).
Proof.
  rewrite (sumZ_of_nat (λ c, length (filter (λ p : Q * Z, (p.1 == a)%Q ∧ p.2 = c) keys))).
  f_equal.
  assert (∀ c, filter (λ p : Q * Z, (p.1 == a)%Q ∧ p.2 = c) keys
               = filter (λ p : Q * Z, p.2 = c) (filter (λ p : Q * Z, (p.1 == a)%Q) keys))
    as Hsplit.
  { intros c. rewrite list_filter_filter. apply list_filter_iff. tauto. }
  erewrite sum_list_with_agree; [|intros c _; by rewrite Hsplit].
  apply (length_partition (λ c (p : Q * Z), p.2 = c)).
  apply Forall_forall. intros p [_ Hp]%list_elem_of_filter.
  erewrite sum_list_with_agree; [apply (one_key_Z (columns t) p.2)|].
  - apply unstack_columns_NoDup.
  - apply elem_of_unstack_columns, list_elem_of_fmap. by exists p.
  - intros c _. simpl. destruct (decide (p.2 = c)), (decide (p.2 = c)); done.
Qed.

(** All cells together count every row once. *)
Lemma unstack_grand_total :
  sumZ (sumZ <$> cells t) = Z.of_nat (length keys).
Proof.
  rewrite unstack_cells, <- list_fmap_compose.
  erewrite list_fmap_ext; [|intros _ a _; apply unstack_row_total].
  rewrite (sumZ_of_nat (λ a, length (filter (λ p : Q * Z, (p.1 == a)%Q) keys))).
  f_equal.
  apply (length_partition (λ a (p : Q * Z), (p.1 == a)%Q)).
  apply Forall_forall. intros p Hp.
  apply (one_key_Q (index t) p.1).
  - unfold t. rewrite unstack_groupby2_size_index. apply sorted_keys_sorted.
  - destruct (unstack_index_covers keys 0 p Hp) as (a & Ha & Hap). by exists a.
Qed.
End TableTotals.

(** ** The stroke-by-age table and the glucose line *)

Lemma stroke_keys_fst (view : list Patient) :
  fst <$> ((λ r, (Age r, Stroke r)) <$> view) = Age <$> view.
Proof. by rewrite <- list_fmap_compose. Qed.

Lemma stroke_keys_snd (view : list Patient) :
  snd <$> ((λ r, (Age r, Stroke r)) <$> view) = Stroke <$> view.
Proof. by rewrite <- list_fmap_compose. Qed.

(** X7. The stroke-by-age table of any view has one row per distinct age of
    the view, in strictly increasing order, one column per distinct
    outcome of the view, in strictly increasing order, and is
    rectangular: as many rows of cells as ages, each with as many cells
    as columns. *)
Theorem stroke_by_age_shape (view : list Patient) :
  let t := stroke_by_age view in
  StronglySorted Qlt (index t)
  ∧ (∀ a, a ∈ index t → a ∈ Age <$> view)
  ∧ (∀ r, r ∈ view → ∃ a, a ∈ index t ∧ (a == Age r)%Q)
  ∧ StronglySorted Z.lt (columns t)
  ∧ (∀ c, c ∈ columns t ↔ c ∈ Stroke <$> view)
  ∧ length (cells t) = length (index t)
  ∧ Forall (λ row, length row = length (columns t)) (cells t).
Proof.
  cbv zeta. unfold stroke_by_age.
  set (keys := (λ r, (Age r, Stroke r)) <$> view).
  rewrite unstack_groupby2_size_index.
  unfold keys at 1 2 3. rewrite stroke_keys_fst. split_and!.
  - apply sorted_keys_sorted.
  - intros a. apply elem_of_sorted_keys.
  - intros r Hr. apply sorted_keys_covers, list_elem_of_fmap. by exists r.
  - apply sorted_keysZ_sorted.
  - intros c. rewrite elem_of_unstack_columns. unfold keys.
    by rewrite stroke_keys_snd.
  - rewrite unstack_cells, length_fmap, unstack_groupby2_size_index.
    unfold keys. by rewrite stroke_keys_fst.
  - rewrite unstack_cells, Forall_fmap. apply Forall_forall. intros a _.
    simpl. by rewrite length_fmap.
Qed.

(** X8. In the stroke-by-age table of any view, whatever the outcome values
    are, the cells of the row of an age add up to the number of rows of
    the view with that age, and all cells together add up to the number
    of rows of the view. *)
Theorem stroke_by_age_totals (view : list Patient) :
  let t := stroke_by_age view in
  (∀ i a row, index t !! i = Some a → cells t !! i = Some row →
     sumZ row = Z.of_nat (length (filter (λ r, Age r == a)%Q view)))
  ∧ sumZ (sumZ <$> cells t) = Z.of_nat (length view).
Proof.
  cbv zeta. unfold stroke_by_age.
  set (keys := (λ r, (Age r, Stroke r)) <$> view). split.
  - intros i a row Ha Hrow. rewrite unstack_cells, list_lookup_fmap, Ha in Hrow.
    injection Hrow as <-. rewrite unstack_row_total. unfold keys.
    by rewrite (filter_fmap (λ r, (Age r, Stroke r))), length_fmap.
  - rewrite unstack_grand_total. unfold keys. by rewrite length_fmap.
Qed.

(** X9. The bar chart and the line chart have the same ages on their x
    axis: the index of the stroke-by-age table is the age column of the
    glucose means. *)
Theorem charts_share_ages `{FloatArith} (view : list Patient) :
  index (stroke_by_age view) = (avg_glucose_by_age view).*1.
Proof.
  unfold stroke_by_age, avg_glucose_by_age, groupby_mean.
  rewrite unstack_groupby2_size_index, <- !list_fmap_compose.
  change (fst ∘ (λ r : Patient, (Age r, Stroke r))) with Age.
  change (fst ∘ (λ r : Patient, (Age r, Avg_Glucose_Level r))) with Age.
  by rewrite list_fmap_id.
Qed.

(** X10. The glucose line of any view has one point per distinct age of the
    view, in strictly increasing order of age; the point of an age holds
    a defined mean, the sum of the glucose levels of the rows of that age
    (in the order of the view) divided by the number of these rows. *)
Theorem avg_glucose_by_age_points `{FloatArith} (view : list Patient) :
  let line := avg_glucose_by_age view in
  StronglySorted Qlt line.*1
  ∧ (∀ r, r ∈ view → ∃ a m, (a, m) ∈ line ∧ (a == Age r)%Q)
  ∧ (∀ a m, (a, m) ∈ line →
       let group := filter (λ r, Age r == a)%Q view in
       group ≠ []
       ∧ m = Some (fdiv (gsum (Avg_Glucose_Level <$> group))
                     (inject_Z (Z.of_nat (length group))))).
Proof.
  cbv zeta. unfold avg_glucose_by_age, groupby_mean.
  set (kv := (λ r, (Age r, Avg_Glucose_Level r)) <$> view).
  assert (fst <$> kv = Age <$> view) as Hfst
    by (unfold kv; by rewrite <- list_fmap_compose).
  assert (∀ a, snd <$> filter (λ p : Q * Q, p.1 == a)%Q kv
               = Avg_Glucose_Level <$> filter (λ r, Age r == a)%Q view) as Hgroup.
  { intros a. unfold kv.
    rewrite (filter_fmap (λ r, (Age r, Avg_Glucose_Level r))).
    by rewrite <- list_fmap_compose. }
  rewrite Hfst. split_and!.
  - rewrite <- list_fmap_compose.
    change (fst ∘ _) with (@id Q). rewrite list_fmap_id. apply sorted_keys_sorted.
  - intros r Hr.
    destruct (sorted_keys_covers (Age r) (Age <$> view)) as (a & Ha & Har).
    { apply list_elem_of_fmap. by exists r. }
    eexists a, _. split; [|done]. apply list_elem_of_fmap. by exists a.
  - intros a m (a' & [= -> ->] & Ha%elem_of_sorted_keys)%list_elem_of_fmap.
    apply list_elem_of_fmap in Ha as (r & -> & Hr).
    assert (filter (λ x, Age x == Age r)%Q view ≠ []) as Hne.
    { intros Hnil.
      assert (r ∈ filter (λ x, Age x == Age r)%Q view) as Hin
        by (apply list_elem_of_filter; split; [reflexivity|done]).
      rewrite Hnil in Hin. by apply elem_of_nil in Hin. }
    split; [done|]. rewrite Hgroup. unfold group_mean.
    destruct (filter _ view) as [|x g]; [done|].
    by rewrite fmap_cons, !length_cons, length_fmap.
Qed.

(** ** Flag columns: sums, counts and rates *)

Lemma sumZ_flags_count (s : list Z) :
  Forall flag s → sumZ s = Z.of_nat (length (filter (λ x, x = 1) s)).
Proof.
  induction 1 as [|x s [->| ->] _ IH]; [done|..].
  - rewrite filter_cons_False by done. simpl. lia.
  - rewrite filter_cons_True by done. simpl in *. lia.
Qed.

Lemma sum_int64_flags_count (s : list Z) :
  Forall flag s → Z.of_nat (length s) < 2 ^ 63 →
  sum_int64 s = Z.of_nat (length (filter (λ x, x = 1) s)).
Proof. intros Hs Hlen. by rewrite sum_int64_flags, sumZ_flags_count. Qed.

Lemma length_filter_le {A} (P : A → Prop) `{!∀ x, Decision (P x)} (l : list A) :
  (length (filter P l) ≤ length l)%nat.
Proof. apply sublist_length, sublist_filter. Qed.

(** X11. On a table with 0/1 condition flags and fewer than 2^63 rows, the
    second pie chart of a filtered view shows the number of rows with
    hypertension, the number of rows with heart disease and, under
    Neither, the number of rows with neither condition minus the number
    of rows with both. *)
Theorem counts_by_condition
    (df : list Patient) (rng : Z * Z) (gs ss : list string) :
  condition_flags df →
  Z.of_nat (length df) < 2 ^ 63 →
  let view := filtered_df df rng gs ss in
  counts view =
    [ ("Hypertension", Z.of_nat (length (filter (λ r, Hypertension r = 1) view)));
      ("Heart Disease", Z.of_nat (length (filter (λ r, Heart_Disease r = 1) view)));
      ("Neither",
        Z.of_nat (length (filter (λ r, Hypertension r = 0 ∧ Heart_Disease r = 0) view))
        - Z.of_nat (length (filter (λ r, Hypertension r = 1 ∧ Heart_Disease r = 1) view))) ].
Proof.
  intros Hflags Hlen. cbv zeta. set (view := filtered_df df rng gs ss).
  pose proof (filtered_df_sublist df rng gs ss) as Hsub. fold view in Hsub.
  apply (Forall_sublist_of _ _ _ Hsub) in Hflags.
  apply sublist_length in Hsub.
  assert (Forall flag (Hypertension <$> view)) as Hh.
  { rewrite Forall_fmap. eapply Forall_impl; [exact Hflags|]. simpl. tauto. }
  assert (Forall flag (Heart_Disease <$> view)) as Hd.
  { rewrite Forall_fmap. eapply Forall_impl; [exact Hflags|]. simpl. tauto. }
  pose proof (length_filter_le (λ x, x = 1) (Hypertension <$> view)) as Hhb.
  pose proof (length_filter_le (λ x, x = 1) (Heart_Disease <$> view)) as Hdb.
  rewrite length_fmap in Hhb, Hdb.
  unfold counts.
  rewrite !sum_int64_flags_count by (rewrite ?length_fmap; (done || lia)).
  rewrite (wrap64_small (Z.of_nat (length view) - _)) by lia.
  rewrite wrap64_small by lia.
  rewrite !(filter_fmap _ (λ x, x = 1)), !length_fmap.
  do 3 f_equal. f_equal.
  clear -Hflags. induction Hflags as [|r view [[Hh|Hh] [Hd|Hd]] _ IH];
    [done|..]; rewrite !filter_cons, Hh, Hd; simpl;
    repeat (case_decide; try (exfalso; lia || tauto || naive_solver));
    simpl length; lia.
Qed.

Lemma counts_by_condition_witness :
  condition_flags (load_data Samples.whole_years)
  ∧ Z.of_nat (length (load_data Samples.whole_years)) < 2 ^ 63
  ∧ counts (filtered_df (load_data Samples.whole_years) (40, 60) ["Male"] ["Smokes"])
    = [ ("Hypertension", 1); ("Heart Disease", 1); ("Neither", 0 - 1) ].
Proof.
  split_and!; [apply whole_years_flags|by vm_compute|].
  apply (counts_by_condition (load_data Samples.whole_years) (40, 60)
           ["Male"] ["Smokes"]);
    [apply whole_years_flags|by vm_compute].
Defined.

Lemma whole_years_smoking :
  Exists (λ r, is_Some (smoking_status_map !! csv_smoking_status r))
    Samples.whole_years.
Proof. apply Exists_cons_hd. by eexists. Qed.

(** ** KPI cards *)

(** X13. For a non-empty file with 0/1 stroke flags and fewer than 2^63
    rows, the Stroke Cases card holds the number of rows whose stroke flag
    is 1, which is at most the value of the Total Patients card. *)
Theorem stroke_cases_card `{FloatArith} (csv : list CsvRow) (u : User) :
  csv ≠ [] →
  Forall (λ r, flag (csv_stroke r)) csv →
  Z.of_nat (length csv) < 2 ^ 63 →
  ∃ total cases,
    metrics (script csv u).1 !! 0%nat = Some ("Total Patients", Int total)
    ∧ metrics (script csv u).1 !! 3%nat = Some ("Stroke Cases", Int cases)
    ∧ cases = Z.of_nat (length (filter (λ r, csv_stroke r = 1) csv))
    ∧ 0 ≤ cases ≤ total.
Proof.
  intros Hne Hflags Hlen. rewrite script_metrics by done.
  assert (sum_int64 (csv_stroke <$> csv)
          = Z.of_nat (length (filter (λ r, csv_stroke r = 1) csv))) as Hsum.
  { rewrite sum_int64_flags_count.
    - by rewrite (filter_fmap csv_stroke), length_fmap.
    - by rewrite Forall_fmap.
    - by rewrite length_fmap. }
  pose proof (length_filter_le (λ r, csv_stroke r = 1) csv) as Hle.
  eexists _, _. split_and!; [done|done|exact Hsum|lia..].
Qed.

Lemma stroke_cases_card_witness :
  Samples.whole_years ≠ []
  ∧ Forall (λ r, flag (csv_stroke r)) Samples.whole_years
  ∧ Z.of_nat (length Samples.whole_years) < 2 ^ 63
  ∧ ∃ total cases,
      metrics (script Samples.whole_years untouched).1 !! 0%nat
        = Some ("Total Patients", Int total)
      ∧ metrics (script Samples.whole_years untouched).1 !! 3%nat
        = Some ("Stroke Cases", Int cases)
      ∧ cases = Z.of_nat (length (filter (λ r, csv_stroke r = 1) Samples.whole_years))
      ∧ 0 ≤ cases ≤ total.
Proof.
  assert (Forall (λ r, flag (csv_stroke r)) Samples.whole_years) as Hflags.
  { repeat constructor; by vm_compute; auto. }
  split_and!; [done|exact Hflags|by vm_compute|].
  apply (stroke_cases_card Samples.whole_years untouched);
    [done|exact Hflags|by vm_compute].
Defined.

Lemma dropna_nil_iff {A} (s : list (option A)) :
  dropna s = [] ↔ Forall (λ c, c = None) s.
Proof.
  induction s as [|c s IH]; [split; [constructor|done]|].
  rewrite dropna_cons, Forall_cons. destruct c as [x|].
  - split; [done|]. by intros [? _].
  - rewrite IH. tauto.
Qed.

Lemma length_dropna {A} (s : list (option A)) :
  length (dropna s) = length (filter is_Some s).
Proof.
  induction s as [|c s IH]; [done|]. rewrite dropna_cons. destruct c.
  - rewrite filter_cons_True by by eexists. simpl. by rewrite IH.
  - rewrite filter_cons_False; [done|]. by intros [? ?].
Qed.

Lemma omap_present {A B} (f : A → option B) (l : list A) :
  omap f (filter (λ x, is_Some (f x)) l) = omap f l
  ∧ length (omap f l) = length (filter (λ x, is_Some (f x)) l).
Proof.
  induction l as [|x l [IH1 IH2]]; [done|]. destruct (f x) as [y|] eqn:E.
  - rewrite filter_cons_True by (rewrite E; by eexists).
    cbn [omap list_omap]. rewrite E. cbn [length]. by rewrite IH1, IH2.
  - rewrite filter_cons_False by (rewrite E; by intros [? ?]).
    cbn [omap list_omap]. by rewrite E.
Qed.

Lemma dropna_fmap {A B} (f : A → option B) (l : list A) :
  dropna (f <$> l) = omap f l.
Proof.
  unfold dropna. induction l as [|x l IH]; [done|].
  rewrite fmap_cons. cbn [omap list_omap]. rewrite IH. by destruct (f x).
Qed.

(** X14. For a non-empty file the Average BMI card is missing (NaN) exactly
    when no row has a BMI; otherwise it is the sum of the BMIs of the
    rows that have one, in the order of the file, divided by the number
    of these rows, whatever the user selects. *)
Theorem average_bmi_card `{FloatArith} (csv : list CsvRow) (u : User) :
  csv ≠ [] →
  let present := filter (λ r, is_Some (csv_bmi r)) csv in
  ∃ v,
    metrics (script csv u).1 !! 2%nat = Some ("Average BMI", Float v)
    ∧ (v = None ↔ Forall (λ r, csv_bmi r = None) csv)
    ∧ (present ≠ [] →
         v = Some (fdiv (fsum (omap csv_bmi present))
                     (inject_Z (Z.of_nat (length present))))).
Proof.
  intros Hne. cbv zeta. rewrite script_metrics by done.
  destruct (omap_present csv_bmi csv) as [Hsame Hlen].
  eexists. split_and!; [done|..].
  - destruct (dropna (csv_bmi <$> csv)) as [|x s] eqn:E.
    + split; [intros _|done].
      apply dropna_nil_iff in E. by rewrite Forall_fmap in E.
    + split; [done|]. intros Hnone.
      assert (dropna (csv_bmi <$> csv) = []) as Hnil
        by (apply dropna_nil_iff; by rewrite Forall_fmap).
      congruence.
  - intros Hpresent. rewrite dropna_fmap, Hsame, <- Hlen. unfold mean.
    destruct (omap csv_bmi csv) as [|x s]; [|done].
    simpl in Hlen. by destruct (filter _ csv).
Qed.

(** On [Samples.clinic] the second of four rows has no BMI: the card shows
    84 / 3, the mean of the three others. *)
Lemma average_bmi_card_witness :
  Samples.clinic ≠ []
  ∧ csv_bmi <$> Samples.clinic = [Some (28 # 1); None; Some (30 # 1); Some (26 # 1)]
  ∧ ∃ v,
      metrics (script Samples.clinic Samples.men).1 !! 2%nat
        = Some ("Average BMI", Float v)
      ∧ ¬ Forall (λ r, csv_bmi r = None) Samples.clinic
      ∧ v = Some (84 # 3).
Proof.
  assert (Samples.clinic ≠ []) as Hne by done.
  destruct (average_bmi_card Samples.clinic Samples.men Hne)
    as (v & Hcard & Hnan & Hpresent).
  split_and!; [done|done|].
  exists v. split_and!; [exact Hcard| |apply Hpresent; by vm_compute].
  intros [Hnone _]%Forall_cons. vm_compute in Hnone. discriminate Hnone.
Defined.

(** A file in which no row has a BMI shows a missing Average BMI. *)
Example average_bmi_card_missing :
  metrics (script [Samples.measured (100 # 1) None (Samples.row 1 1 (45 # 1) 0 0 3 1)]
             untouched).1 !! 2%nat
  = Some ("Average BMI", Float None).
Proof. reflexivity. Qed.

(** ** The label of the insight block *)

Section LabelOrder.
Implicit Types (l x y z : string) (s : list string).

Lemma string_compare_trans x y z :
  String.compare x y ≠ Gt → String.compare y z ≠ Gt → String.compare x z ≠ Gt.
Proof.
  revert y z. induction x as [|a x IH]; intros [|b y] [|c z]; simpl; try done.
  unfold Ascii.compare.
  destruct (N.compare_spec (Ascii.N_of_ascii a) (Ascii.N_of_ascii b)) as [Hab|Hab|Hab];
    destruct (N.compare_spec (Ascii.N_of_ascii b) (Ascii.N_of_ascii c)) as [Hbc|Hbc|Hbc];
    destruct (N.compare_spec (Ascii.N_of_ascii a) (Ascii.N_of_ascii c)) as [Hac|Hac|Hac];
    try done; try lia.
  apply IH.
Qed.

Lemma string_leb_trans x y z :
  String.leb x y = true → String.leb y z = true → String.leb x z = true.
Proof.
  unfold String.leb. intros Hxy Hyz.
  pose proof (string_compare_trans x y z) as Htrans.
  destruct (String.compare x y), (String.compare y z), (String.compare x z);
    try done; by exfalso; apply Htrans.
Qed.

Lemma string_leb_refl x : String.leb x x = true.
Proof. by destruct (String.leb_total x x). Qed.

Lemma insert_label_sorted x s :
  StronglySorted (λ y z, String.leb y z = true) s →
  StronglySorted (λ y z, String.leb y z = true) (insert_label x s).
Proof.
  induction 1 as [|y s Hs IH Hall]; simpl.
  - repeat constructor.
  - destruct (String.leb x y) eqn:E.
    + constructor; [by constructor|]. constructor; [done|].
      eapply Forall_impl; [exact Hall|]. intros z Hz. simpl in *.
      by eapply string_leb_trans.
    + constructor; [done|].
      apply Forall_forall. intros z [->|Hz]%elem_of_insert_label.
      * destruct (String.leb_total y x); [done|congruence].
      * pointwise Hall. by apply Hall.
Qed.

Lemma sort_labels_sorted s :
  StronglySorted (λ y z, String.leb y z = true) (sort_labels s).
Proof.
  unfold sort_labels. induction s as [|x s IH]; simpl; [constructor|].
  by apply insert_label_sorted.
Qed.

(** The first of the sorted labels is the least. *)
Lemma sort_labels_head x s (rest : list string) :
  sort_labels s = x :: rest → ∀ y, y ∈ s → String.leb x y = true.
Proof.
  intros Hsort y Hy. apply elem_of_sort_labels in Hy. rewrite Hsort in Hy.
  pose proof (sort_labels_sorted s) as Hsorted. rewrite Hsort in Hsorted.
  apply StronglySorted_inv in Hsorted as [_ Hall]. pointwise Hall.
  apply elem_of_cons in Hy as [->|Hy]; [apply string_leb_refl|by apply Hall].
Qed.

Lemma modal_elem_of_mode (col : list (option string)) l :
  is_modal l col → l ∈ mode col.
Proof.
  intros [Hl Hmax]. unfold mode.
  rewrite elem_of_sort_labels, list_elem_of_filter, elem_of_unique, elem_of_dropna.
  split; [|done].
  set (vals := dropna col) in *.
  assert ((λ l, occurrences l vals) <$> unique vals ≠ []) as Hu.
  { assert (l ∈ unique vals) as Hin by by apply elem_of_unique, elem_of_dropna.
    destruct (unique vals); [by apply elem_of_nil in Hin|done]. }
  apply max_list_elem_of, list_elem_of_fmap in Hu as (l' & Htop & _).
  apply Nat.le_antisymm.
  - apply max_list_elem_of_le, list_elem_of_fmap. exists l. split; [done|].
    by apply elem_of_unique, elem_of_dropna.
  - rewrite Htop. apply Hmax.
Qed.
End LabelOrder.

(** X15. For a non-empty file with at least one smoking label, a run that
    reaches the insight block (the view is empty or holds both stroke
    outcomes) shows in it a most frequent smoking label, and among the
    most frequent labels the first in the order of strings. *)
Theorem insight_label_least_mode `{FloatArith} (csv : list CsvRow) (u : User) :
  csv ≠ [] →
  Exists (λ r, is_Some (smoking_status_map !! csv_smoking_status r)) csv →
  run_view csv u = [] ∨ both_outcomes (run_view csv u) →
  ∃ glucose bmi m h d s,
    insight_blocks (script csv u).1 = [ Insights glucose bmi m h d s ]
    ∧ is_modal m (Smoking_Status <$> load_data csv)
    ∧ ∀ l, is_modal l (Smoking_Status <$> load_data csv) → String.leb m l = true.
Proof.
  intros Hne Hsmk Hview.
  destruct (getitem0_mode (Smoking_Status <$> load_data csv)) as (m & Hm & Hmodal);
    [by apply smoking_labels_present|].
  eexists _, _, m, _, _, _. split_and!; [by apply (script_insights csv u m)|done|].
  intros l Hl%modal_elem_of_mode.
  unfold mode in Hm, Hl. rewrite elem_of_sort_labels in Hl.
  destruct (sort_labels _) as [|m' rest] eqn:E; [done|].
  injection Hm as ->. by apply (sort_labels_head _ _ _ E).
Qed.

(** On [Samples.whole_years] one patient smokes and one never smoked: of
    the two most frequent labels the block shows Never Smoked. *)
Lemma insight_label_least_mode_witness :
  Samples.whole_years ≠ []
  ∧ Exists (λ r, is_Some (smoking_status_map !! csv_smoking_status r))
      Samples.whole_years
  ∧ (run_view Samples.whole_years untouched = []
     ∨ both_outcomes (run_view Samples.whole_years untouched))
  ∧ ∃ glucose bmi h d s,
      insight_blocks (script Samples.whole_years untouched).1
        = [ Insights glucose bmi "Never Smoked" h d s ]
      ∧ is_modal "Never Smoked" (Smoking_Status <$> load_data Samples.whole_years)
      ∧ ∀ l, is_modal l (Smoking_Status <$> load_data Samples.whole_years) →
             String.leb "Never Smoked" l = true.
Proof.
  assert (both_outcomes (run_view Samples.whole_years untouched)) as Hview.
  { split; vm_compute; [right; left|left]. }
  destruct (insight_label_least_mode Samples.whole_years untouched)
    as (glucose & bmi & m & h & d & s & Hblock & Hmodal & Hleast);
    [done|apply whole_years_smoking|by right|].
  assert (m = "Never Smoked") as -> by (vm_compute in Hblock; congruence).
  split_and!; [done|apply whole_years_smoking|by right|].
  by exists glucose, bmi, h, d, s.
Defined.

(** ** Loading *)

(** Different codes of a table never share a label. *)
Lemma tables_injective (k k' : Z) (l : string) :
  (gender_map !! k = Some l → gender_map !! k' = Some l → k = k')
  ∧ (work_type_map !! k = Some l → work_type_map !! k' = Some l → k = k')
  ∧ (residence_type_map !! k = Some l → residence_type_map !! k' = Some l → k = k')
  ∧ (smoking_status_map !! k = Some l → smoking_status_map !! k' = Some l → k = k').
Proof.
  unfold gender_map, work_type_map, residence_type_map, smoking_status_map.
  split_and!; intros Hk Hk';
    repeat (apply lookup_insert_Some in Hk as [[<- <-]|[_ Hk]];
            [by repeat (apply lookup_insert_Some in Hk' as [[<- ?]|[_ Hk']];
                        [done|]);
                apply lookup_singleton_Some in Hk' as [<- ?]|]);
    apply lookup_singleton_Some in Hk as [<- <-];
    repeat (apply lookup_insert_Some in Hk' as [[<- ?]|[_ Hk']]; [done|]);
    by apply lookup_singleton_Some in Hk' as [<- ?].
Qed.

Lemma cons_eq_inv {A} (x y : A) (l k : list A) :
  x :: l = y :: k → x = y ∧ l = k.
Proof. by intros [= -> ->]. Qed.

(** X16. Loading loses nothing on codes of the tables: two files whose
    coded cells all have a label and which load to the same table are the
    same file, row by row. *)
Theorem load_data_injective (csv csv' : list CsvRow) :
  Forall (λ r, is_Some (Gender (relabel r)) ∧ is_Some (Work_Type (relabel r))
               ∧ is_Some (Residence_Type (relabel r))
               ∧ is_Some (Smoking_Status (relabel r))) csv →
  load_data csv = load_data csv' →
  csv = csv'.
Proof.
  intros Hdom. revert csv'.
  induction Hdom as [|r csv ([g Hg] & [w Hw] & [t Ht] & [s Hs]) _ IH];
    intros [|r' csv'] Heq; try done.
  unfold load_data in Heq. rewrite !fmap_cons in Heq.
  apply cons_eq_inv in Heq as [Hr Hrest]. f_equal; [|by apply IH].
  destruct r, r'. unfold relabel in *. simpl in *.
  injection Hr as -> Hgender -> -> -> -> Hwork Hres -> -> Hsmoke ->.
  rewrite Hg in Hgender. rewrite Hw in Hwork.
  rewrite Ht in Hres. rewrite Hs in Hsmoke.
  symmetry in Hgender, Hwork, Hres, Hsmoke.
  f_equal.
  - destruct (tables_injective csv_gender0 csv_gender1 g) as (Hinj & _). auto.
  - destruct (tables_injective csv_work_type0 csv_work_type1 w)
      as (_ & Hinj & _). auto.
  - destruct (tables_injective csv_residence_type0 csv_residence_type1 t)
      as (_ & _ & Hinj & _). auto.
  - destruct (tables_injective csv_smoking_status0 csv_smoking_status1 s)
      as (_ & _ & _ & Hinj). auto.
Qed.

Lemma load_data_injective_witness :
  Forall (λ r, is_Some (Gender (relabel r)) ∧ is_Some (Work_Type (relabel r))
               ∧ is_Some (Residence_Type (relabel r))
               ∧ is_Some (Smoking_Status (relabel r))) Samples.whole_years
  ∧ load_data Samples.whole_years = load_data Samples.whole_years
  ∧ Samples.whole_years = Samples.whole_years.
Proof.
  assert (Forall (λ r, is_Some (Gender (relabel r)) ∧ is_Some (Work_Type (relabel r))
               ∧ is_Some (Residence_Type (relabel r))
               ∧ is_Some (Smoking_Status (relabel r))) Samples.whole_years) as Hdom.
  { repeat constructor; by eexists. }
  split_and!; [exact Hdom|reflexivity|].
  apply (load_data_injective Samples.whole_years Samples.whole_years);
    [exact Hdom|reflexivity].
Defined.

(** ** How a run ends *)

Lemma px_bar_raises_ValueError (t : Table) (y : list Z) (e : exn) :
  px_bar t y = Raise e → e = ValueError.
Proof.
  unfold px_bar. destruct (decide _); [done|].
  destruct (index t); [done|]. destruct (decide _); [done|]. by intros [= <-].
Qed.

Lemma px_bar_rejects (view : list Patient) :
  view ≠ [] → ¬ both_outcomes view →
  length (index (stroke_by_age view)) ≠ 2%nat →
  px_bar (stroke_by_age view) [0; 1] = Raise ValueError.
Proof.
  intros Hne Hout Hlen. unfold px_bar.
  rewrite decide_False.
  - destruct (index (stroke_by_age view)) as [|a idx] eqn:E.
    + destruct view as [|r view]; [done|].
      destruct (unstack_index_covers ((λ r, (Age r, Stroke r)) <$> r :: view) 0
                  (Age r, Stroke r)) as (a & Ha & _); [left|].
      unfold stroke_by_age in E. rewrite E in Ha. by apply elem_of_nil in Ha.
    + rewrite decide_False; [done|]. intros Heq. by rewrite <- Heq in Hlen.
  - intros Hcols. apply Hout.
    apply Forall_cons in Hcols as [H0 [H1 _]%Forall_cons].
    split; by apply stroke_by_age_columns.
Qed.

(** A run whose bar chart raises: the cards are out, no insight block
    is. *)
Lemma script_stops_at_bar `{FloatArith} csv u e :
  csv ≠ [] →
  px_bar (stroke_by_age (run_view csv u)) [0; 1] = Raise e →
  (script csv u).2 = Raise e ∧ insight_blocks (script csv u).1 = [].
Proof.
  intros Hne Hbar.
  destruct (series_min_is_Some (Age <$> load_data csv)) as [mn Hmn];
    [by apply load_data_nonempty|].
  destruct (series_max_is_Some (Age <$> load_data csv)) as [mx Hmx];
    [by apply load_data_nonempty|].
  pose proof (sidebar_run _ u _ _ Hmn Hmx) as Hs.
  rewrite (run_view_sidebar _ _ _ _ Hs) in Hbar.
  rewrite (script_run _ _ _ _ Hs).
  by rewrite charts_run, Hbar, kpi_cards_run.
Qed.

Lemma run_view_empty_file (u : User) : run_view [] u = [].
Proof. done. Qed.

(** X17. How a run ends.  An empty file stops it with ValueError at the
    slider.  It stops with KeyError exactly on a non-empty file none of
    whose smoking codes is in the table.  On a non-empty file with a
    smoking label it runs to its end when the view is empty or holds both
    stroke outcomes.  It stops with ValueError at the bar chart, the four
    cards emitted and no insight block, when the view has rows, lacks a
    stroke outcome and the number of its distinct ages is not 2, the
    number of columns the chart asks for. *)
Theorem run_outcomes `{FloatArith} (csv : list CsvRow) (u : User) :
  (csv = [] → (script csv u).2 = Raise ValueError)
  ∧ ((script csv u).2 = Raise KeyError
     ↔ csv ≠ [] ∧ Forall (λ r, smoking_status_map !! csv_smoking_status r = None) csv)
  ∧ (csv ≠ [] →
     Exists (λ r, is_Some (smoking_status_map !! csv_smoking_status r)) csv →
     run_view csv u = [] ∨ both_outcomes (run_view csv u) →
     ∃ g, (script csv u).2 = Ok g)
  ∧ (run_view csv u ≠ [] → ¬ both_outcomes (run_view csv u) →
     length (index (stroke_by_age (run_view csv u))) ≠ 2%nat →
     (script csv u).2 = Raise ValueError
     ∧ length (metrics (script csv u).1) = 4%nat
     ∧ insight_blocks (script csv u).1 = []).
Proof.
  split_and!.
  - by intros ->.
  - split.
    + intros Hkey.
      destruct (decide (csv = [])) as [->|Hne]; [done|]. split; [done|].
      destruct (decide (Exists (λ r, is_Some (smoking_status_map !! csv_smoking_status r))
                          csv)) as [Hsmk|Hno].
      * exfalso.
        destruct (px_bar (stroke_by_age (run_view csv u)) [0; 1]) as [[]|e] eqn:Hbar.
        -- destruct (script_run_view csv u Hne) as (es & ctl & _ & _ & Hrun).
           rewrite charts_run, Hbar in Hrun.
           destruct (getitem0_mode (Smoking_Status <$> load_data csv)) as (m & Hm & _);
             [by apply smoking_labels_present|].
           rewrite insights_run, Hm in Hrun. by rewrite Hrun in Hkey.
        -- destruct (script_stops_at_bar csv u e Hne Hbar) as [Hraise _].
           apply px_bar_raises_ValueError in Hbar as ->. congruence.
      * apply not_Exists_Forall in Hno; [|apply _].
        eapply Forall_impl; [exact Hno|]. simpl. intros r Hr.
        by apply eq_None_not_Some.
    + intros [Hne Hnone]. by apply script_raises_without_smoking_labels.
  - intros Hne Hsmk Hview.
    destruct (script_completes csv u Hne Hsmk Hview) as (es & g & ->). by exists g.
  - intros Hview Hout Hlen.
    assert (csv ≠ []) as Hne by (intros ->; by rewrite run_view_empty_file in Hview).
    destruct (script_stops_at_bar csv u ValueError Hne) as [Hraise Hblocks];
      [by apply px_bar_rejects|].
    split_and!; [done| |done]. by rewrite script_metrics.
Qed.

(** X18. On a non-empty file none of whose smoking codes is in the table,
    every selection gives an empty view, and the run emits the sidebar,
    the title, the four KPI cards, the five charts of the empty view and
    the Insights header, then stops with KeyError: no insight block and no
    recommendations are emitted. *)
Theorem run_without_smoking_labels `{FloatArith} (csv : list CsvRow) (u : User) :
  csv ≠ [] →
  Forall (λ r, smoking_status_map !! csv_smoking_status r = None) csv →
  (∀ rng gs ss, filtered_df (load_data csv) rng gs ss = [])
  ∧ ∃ es ctl,
      sidebar (load_data csv) u = (es, Ok ctl)
      ∧ script csv u =
          ((es ++ Title "Stroke Data Dashboard" :: (kpi_cards (load_data csv)).1
               ++ Markdown "---" :: (charts []).1
               ++ [Markdown "---"; Header "Insights"])%list,
           Raise KeyError).
Proof.
  intros Hne Hnone. split.
  { intros rng gs ss. by apply no_smoking_label_empty_view. }
  destruct (series_min_is_Some (Age <$> load_data csv)) as [mn Hmn];
    [by apply load_data_nonempty|].
  destruct (series_max_is_Some (Age <$> load_data csv)) as [mx Hmx];
    [by apply load_data_nonempty|].
  eexists _, _. split; [by apply sidebar_run|].
  rewrite (script_run _ _ _ _ (sidebar_run _ u _ _ Hmn Hmx)).
  unfold filter_stmt. cbn [g_filtered_df].
  rewrite no_smoking_label_empty_view by done.
  rewrite insights_run, mode_all_missing by by apply smoking_labels_absent.
  reflexivity.
Qed.

Lemma run_without_smoking_labels_witness :
  Samples.unknown_smoking ≠ []
  ∧ Forall (λ r, smoking_status_map !! csv_smoking_status r = None)
      Samples.unknown_smoking
  ∧ (∀ rng gs ss, filtered_df (load_data Samples.unknown_smoking) rng gs ss = [])
  ∧ ∃ es ctl,
      sidebar (load_data Samples.unknown_smoking) untouched = (es, Ok ctl)
      ∧ script Samples.unknown_smoking untouched =
          ((es ++ Title "Stroke Data Dashboard"
               :: (kpi_cards (load_data Samples.unknown_smoking)).1
               ++ Markdown "---" :: (charts []).1
               ++ [Markdown "---"; Header "Insights"])%list,
           Raise KeyError).
Proof.
  assert (Forall (λ r, smoking_status_map !! csv_smoking_status r = None)
            Samples.unknown_smoking) as Hnone.
  { repeat constructor. }
  split; [done|]. split; [exact Hnone|].
  apply (run_without_smoking_labels Samples.unknown_smoking untouched);
    [done|exact Hnone].
Defined.
